(** * Benchmark harness of the subreddit classification project

    A shallow embedding of [notebooks/preprocessing.ipynb]: the sizing
    heuristic ([bytes_to_gb], [configure_spark], [build_spark_session]), the
    label filter ([filter_data]), the seeded split ([split_data]) and the
    timing loop ([evaluate_performance] and the per-dataset loop of the last
    benchmark cell).

    Python [int] is [Z].  A Python [float] is the rational it denotes ([Q]):
    times, accuracies and their means are exact.  Where binary64 rounding
    decides an integer result, in the true division of a byte count, the
    rounding is written out ([fl53]), and so is where a float overflows and
    Python raises ([bytes_to_gb_raises], [configure_spark_raises]); a file
    length read from HDFS is a Java long, far below that.  The Spark
    engine, HDFS, the wall
    clock and Python's [random] are collaborators: their behaviour is a
    record of operations ([Engine]) over which the harness is parametric. *)

From Stdlib Require Import ZArith QArith Qabs Lia Lqa.
From stdpp Require Import base list strings gmap pretty sorting.

(** ** Outcomes of calls *)

(** What a call gives back: a value, or an exception with its message. *)
Inductive Outcome (A : Type) :=
| Ok (a : A)
| Raise (e : string).
Arguments Ok {A} a.
Arguments Raise {A} e.

(** ** Python numbers *)

Module Py.
Local Open Scope Z_scope.

(** A finite binary64 value, as the rational it denotes. *)
Definition float := Q.

(** Nearest multiple of [2^s] to [m >= 0], ties to the even quotient. *)
Definition round_half_even (m s : Z) : Z :=
  let q := m / 2 ^ s in
  let r := m mod 2 ^ s in
  let half := 2 ^ (s - 1) in
  if (half <? r) || ((r =? half) && Z.odd q)
  then (q + 1) * 2 ^ s
  else q * 2 ^ s.

(** The integer of 53 significant bits nearest to the integer [x] (round
    half to even): the binary64 value nearest to [x] where there is one,
    that is for [|fl53 x| < 2^1024].  Exact for [|x| < 2^53]. *)
Definition fl53 (x : Z) : Z :=
  let s := Z.log2 (Z.abs x) - 52 in
  if s <=? 0 then x else Z.sgn x * round_half_even (Z.abs x) s.

(** [a / 2**k] for an [int] a, where it returns: CPython's true division
    is correctly rounded, and scaling by a power of two is exact. *)
Definition truediv_pow2 (a : Z) (k : positive) : float :=
  Qmake (fl53 a) (2 ^ k)%positive.

(** Where [a / 2**k] does not return: when the rounded quotient is
    [2^1024] or more in magnitude there is no such float, and CPython
    raises [OverflowError]. *)
Definition truediv_pow2_overflows (a : Z) (k : positive) : bool :=
  2 ^ (1024 + Zpos k) <=? Z.abs (fl53 a).

Definition truediv_overflow_message : string :=
  "integer division result too large for a float".

(** [x * c] for a float [x] and [c = 2], where it is finite: exact. *)
Definition mul_int (x : float) (c : Z) : float := (x * inject_Z c)%Q.

(** Where [x * c] is not finite: the product is [2^1024] or more in
    magnitude, the float is an infinity, and [int] of it raises
    [OverflowError]. *)
Definition mul_int_overflows (x : float) (c : Z) : bool :=
  Qle_bool (inject_Z (2 ^ 1024)) (Qabs (x * inject_Z c)).

Definition int_overflow_message : string :=
  "cannot convert float infinity to integer".

(** [int(x)] of a finite float: truncation toward zero. *)
Definition int (x : float) : Z := Z.quot (Qnum x) (Zpos (Qden x)).

(** [str(n)] of an [int]. *)
Definition str (n : Z) : string := pretty n.

End Py.

(** ** Spark cluster init: sizing *)

Section Sizing.
Local Open Scope Z_scope.

(** [bytes_to_mb]: [size_bytes / (1024 * 1024)], where the division
    returns; [bytes_to_mb_raises] says where it does not. *)
Definition bytes_to_mb (size_bytes : Z) : Py.float := Py.truediv_pow2 size_bytes 20.
Definition bytes_to_mb_raises (size_bytes : Z) : bool :=
  Py.truediv_pow2_overflows size_bytes 20.

(** [bytes_to_gb]: [size_bytes / (1024 * 1024 * 1024)], where the
    division returns; [bytes_to_gb_raises] says where it does not. *)
Definition bytes_to_gb (size_bytes : Z) : Py.float := Py.truediv_pow2 size_bytes 30.
Definition bytes_to_gb_raises (size_bytes : Z) : bool :=
  Py.truediv_pow2_overflows size_bytes 30.

Definition core_factor : Z := 2.
Definition memory_factor : Z := 1.

(** The number inside [executor_memory]: [min(executor_cores, 4) * memory_factor]. *)
Definition executor_memory_gb (executor_cores : Z) : Z :=
  Z.min executor_cores 4 * memory_factor.

(** [configure_spark(dataset_size_gb)], returning
    [(executor_cores, executor_memory)], where [int] returns;
    [configure_spark_raises] says where it does not. *)
Definition configure_spark (dataset_size_gb : Py.float) : Z * string :=
  let executor_cores := Py.int (Py.mul_int dataset_size_gb core_factor) + 2 in
  let executor_cores :=
    if negb (executor_cores mod 2 =? 0) then executor_cores + 1 else executor_cores in
  let executor_memory := Py.str (executor_memory_gb executor_cores) +:+ "g" in
  (executor_cores, executor_memory).

Definition configure_spark_raises (dataset_size_gb : Py.float) : bool :=
  Py.mul_int_overflows dataset_size_gb core_factor.

(** What [configure_spark] does to an odd count. *)
Definition next_even (c : Z) : Z := if negb (c mod 2 =? 0) then c + 1 else c.

(** The sizing call of [build_spark_session],
    [configure_spark(bytes_to_gb(fileSize))], as a call that may raise, for
    a Python [int] of any size.  Neither function has a [raise] or a test
    of the sign of its argument; what can fail is the arithmetic, when a
    float overflows: the division in [bytes_to_gb], or [int] of the
    infinite product in [configure_spark]. *)
Definition SizeEstimator (byte_size : Z) : Outcome (Z * string) :=
  if bytes_to_gb_raises byte_size then Raise Py.truediv_overflow_message
  else if configure_spark_raises (bytes_to_gb byte_size)
  then Raise Py.int_overflow_message
  else Ok (configure_spark (bytes_to_gb byte_size)).

(** The options [build_spark_session] gives to the session builder, as the
    builder stores them: a dictionary from key to string. *)
Definition py_bool_str (b : bool) : string := if b then "true" else "false".

Definition session_options (executor_cores : Z) (executor_memory : string)
  : gmap string string :=
  <["spark.blockManager.port" := Py.str 10005]>
  (<["spark.driver.port" := Py.str 9999]>
  (<["spark.cores.max" := Py.str (Z.min executor_cores 32)]>
  (<["spark.executor.memory" := executor_memory]>
  (<["spark.executor.cores" := Py.str (Z.min executor_cores 4)]>
  (<["spark.dynamicAllocation.executorIdleTimeout" := "60s"]>
  (<["spark.shuffle.service.enabled" := py_bool_str false]>
  (<["spark.dynamicAllocation.shuffleTracking.enabled" := py_bool_str true]>
  (<["spark.dynamicAllocation.enabled" := py_bool_str true]>
  (<["spark.app.name" := "Project Group 32"]>
  (<["spark.master" := "spark://192.168.2.156:7077"]> ∅)))))))))).

(** The sizing part of [build_spark_session]: from the probed file size to
    the options of the benchmark session. *)
Definition sized_options (fileSize : Z) : gmap string string :=
  let '(executor_cores, executor_memory) := configure_spark (bytes_to_gb fileSize) in
  session_options executor_cores executor_memory.

End Sizing.


(** ** DataFrames of posts *)

(** A row under [schema_v1]: three nullable string columns. *)
Record Row := mkRow {
  subreddit : option string;
  summary : option string;
  content : option string
}.

Definition DataFrame := list Row.

Global Instance Row_eq_dec : EqDecision Row.
Proof. solve_decision. Defined.

(** [col("subreddit").isNotNull() & col("summary").isNotNull() & col("content").isNotNull()] *)
Definition all_not_null (r : Row) : bool :=
  bool_decide (is_Some (subreddit r)) && bool_decide (is_Some (summary r))
  && bool_decide (is_Some (content r)).

(** [groupBy("subreddit").count()]: one row per distinct key with the
    number of rows that carry it (here in order of first occurrence; the
    engine's order is not fixed, and [orderBy] permutes it anyway). *)
Definition groupBy_count (df : DataFrame) : list (option string * nat) :=
  (λ k, (k, length (filter (λ r, subreddit r = k) df))) <$> remove_dups (subreddit <$> df).

(** [col("subreddit").isin(values)]: SQL [IN]; a null is in no list. *)
Definition isin (values : list (option string)) (r : Row) : bool :=
  match subreddit r with
  | None => false
  | Some c => bool_decide (Some c ∈ values)
  end.

(** [filter_data(df)].  [orderBy_count_desc] is the engine's
    [orderBy(col("count").desc())]; how it orders equal counts is its own
    business. *)
Definition filter_data
    (orderBy_count_desc : list (option string * nat) → list (option string * nat))
    (df : DataFrame) : DataFrame :=
  let df_filtered := filter (λ r, all_not_null r = true) df in
  let df_counts := orderBy_count_desc (groupBy_count df_filtered) in
  let top_25_counts := take 25 df_counts in
  let top_25_subreddits := top_25_counts.*1 in
  filter (λ r, isin top_25_subreddits r = true) df_filtered.

(** A descending sort by count, one admissible [orderBy]. *)
Definition count_desc (a b : option string * nat) : Prop := b.2 ≤ a.2.

Global Instance count_desc_dec : RelDecision count_desc.
Proof. intros a b. unfold count_desc. apply _. Defined.

Definition sort_count_desc (l : list (option string * nat)) : list (option string * nat) :=
  merge_sort count_desc l.

(** ** The sampler behind [randomSplit] *)

(** Rows whose draw falls in the cell [[lo, hi)].  [draw k] is the number
    in [[0,1)] that the seeded generator gives to the row at position [k].
    Which rows a cell holds is what is modelled; the engine sorts the rows
    of a partition before it samples, so the order in which a cell comes
    back is the engine's, not the one of this list. *)
Definition sample_cell (draw : nat → Q) (lo hi : Q) (df : DataFrame) : DataFrame :=
  (filter (λ kr, (Qle_bool lo (draw kr.1) && negb (Qle_bool hi (draw kr.1))) = true)
          (imap pair df)).*2.

(** [weights.map(_ / sum).scanLeft(0.0)(_ + _)] *)
Fixpoint scan_sum (acc : Q) (ws : list Q) : list Q :=
  match ws with
  | [] => [acc]
  | w :: ws' => acc :: scan_sum (acc + w)%Q ws'
  end.

Definition normalized_cum_weights (weights : list Q) : list Q :=
  let sum := foldr Qplus 0%Q weights in
  scan_sum 0%Q ((λ w, w / sum)%Q <$> weights).

(** [sliding(2)]: consecutive pairs. *)
Fixpoint sliding2 (l : list Q) : list (Q * Q) :=
  match l with
  | a :: (b :: _) as tl => (a, b) :: sliding2 tl
  | _ => []
  end.

Definition split_cells (draw : nat → Q) (weights : list Q) (df : DataFrame)
  : list DataFrame :=
  (λ c, sample_cell draw c.1 c.2 df) <$> sliding2 (normalized_cum_weights weights).

(** ** Pipeline stages *)

Inductive Stage :=
| Tokenizer (inputCol outputCol : string)
| StopWordsRemover (inputCol outputCol : string)
| HashingTF (inputCol outputCol : string) (numFeatures : nat)
| IDF (inputCol outputCol : string)
| StringIndexer (inputCol outputCol handleInvalid : string)
| VectorAssembler (inputCols : list string) (outputCol : string)
| RandomForestClassifier (featuresCol labelCol : string) (numTrees : nat)
| LogisticRegression (featuresCol labelCol : string) (maxIter : nat).

(** [pre_processing_pipe()] *)
Definition pre_processing_pipe : list Stage :=
  let tokenizer := Tokenizer "summary" "summary_tokens" in
  let tokenizer2 := Tokenizer "content" "content_tokens" in
  let stopwords_remover := StopWordsRemover "summary_tokens" "summary_clean" in
  let stopwords_remover2 := StopWordsRemover "content_tokens" "content_clean" in
  let hashing_tf := HashingTF "summary_clean" "summary_tf" 1000 in
  let idf := IDF "summary_tf" "summary_features" in
  let hashing_tf2 := HashingTF "content_clean" "content_tf" 1000 in
  let idf2 := IDF "content_tf" "content_features" in
  let label_indexer := StringIndexer "subreddit" "label" "keep" in
  let feature_assembler :=
    VectorAssembler ["summary_features"; "content_features"] "features" in
  [tokenizer; tokenizer2; stopwords_remover; stopwords_remover2;
   hashing_tf; idf; hashing_tf2; idf2; label_indexer; feature_assembler].

(** ** Collaborators and the state of a run *)

Definition Schema := list string.

(** The engine: an opaque state [ES] (cluster, file system, clock, Python's
    [random]) and what each external call does to it. *)
Record Engine := mkEngine {
  ES : Type;
  Model : Type;
  (** [time.time()] *)
  time_time : ES → Q;
  (** [fs.getFileStatus(path).getLen()] *)
  hdfs_getLen : string → string → ES → Outcome Z * ES;
  (** starting a context for a new session, and stopping one *)
  context_start : gmap string string → ES → Outcome unit * ES;
  context_stop : ES → ES;
  (** [spark_session.read.json(path, schema)] *)
  read_json : string → option Schema → ES → Outcome DataFrame * ES;
  (** running the job of an action such as [collect()] *)
  run_job : string → ES → Outcome unit * ES;
  (** [orderBy(col("count").desc())] as this engine orders the counts *)
  orderBy_count_desc : ES → list (option string * nat) → list (option string * nat);
  (** the draw of the generator seeded with [seed] for the row at a position *)
  rng_double : Z → nat → Q;
  (** [random.randint(0, sys.maxsize)] *)
  random_randint : ES → Z * ES;
  (** [Pipeline(stages).fit(train_data)] *)
  pipeline_fit : list Stage → DataFrame → ES → Outcome Model * ES;
  (** [evaluator.evaluate(model.transform(test_data))] *)
  transform_evaluate : Model → DataFrame → ES → Outcome Q * ES
}.

(** A session handle: its identity and the options it was built with. *)
Record Session := mkSession {
  sid : nat;
  options : gmap string string
}.

(** The sessions' side of the state.  [live] holds the sessions whose
    context runs; [created] counts the sessions built so far; [history]
    logs the identities in [live] after every change. *)
Record World (E : Engine) := mkWorld {
  eng : ES E;
  live : list Session;
  created : nat;
  history : list (list nat);
  stdout : list string
}.
Arguments mkWorld {E}.
Arguments eng {E}.
Arguments live {E}.
Arguments created {E}.
Arguments history {E}.
Arguments stdout {E}.

Definition M (E : Engine) (A : Type) : Type := World E → Outcome A * World E.

Section Monad.
Context {E : Engine}.

Definition ret {A} (a : A) : M E A := λ w, (Ok a, w).

Definition raise {A} (e : string) : M E A := λ w, (Raise e, w).

(** Sequencing: an exception skips the rest and keeps the state. *)
Definition bind {A B} (m : M E A) (k : A → M E B) : M E B := λ w,
  match m w with
  | (Ok a, w') => k a w'
  | (Raise e, w') => (Raise e, w')
  end.

(** [try: m  except Exception as e: handler(str(e))] *)
Definition try_except {A} (m : M E A) (handler : string → M E A) : M E A := λ w,
  match m w with
  | (Ok a, w') => (Ok a, w')
  | (Raise e, w') => handler e w'
  end.

Definition set_eng (es : ES E) (w : World E) : World E :=
  mkWorld es (live w) (created w) (history w) (stdout w).

Definition engine_call {A} (op : ES E → Outcome A * ES E) : M E A := λ w,
  let '(r, es) := op (eng w) in (r, set_eng es w).

Definition engine_read {A} (f : ES E → A) : M E A := λ w, (Ok (f (eng w)), w).

Definition print (s : string) : M E unit := λ w,
  (Ok tt, mkWorld (eng w) (live w) (created w) (history w) (stdout w ++ [s])).

(** [for x in l: s = body(x, s)] *)
Fixpoint for_each {A S} (l : list A) (body : A → S → M E S) (s : S) : M E S :=
  match l with
  | [] => ret s
  | x :: l' => bind (body x s) (for_each l' body)
  end.
End Monad.

Notation "'let!' x := m 'in' k" := (bind m (λ x, k))
  (at level 10, x pattern, m at level 100, k at level 200,
   format "'[v' 'let!'  x  :=  m  'in' '/' k ']'").

(** ** Sessions *)

Section Sessions.
Context {E : Engine}.

(** [SparkSession.builder...getOrCreate()]: the instantiated session is
    returned as it is when its context runs; otherwise a context is
    started with the builder's options. *)
Definition getOrCreate (opts : gmap string string) : M E Session := λ w,
  match live w with
  | s :: _ => (Ok s, w)
  | [] =>
      match context_start E opts (eng w) with
      | (Ok _, es) =>
          let s := mkSession (created w) opts in
          (Ok s, mkWorld es [s] (S (created w)) (history w ++ [[sid s]]) (stdout w))
      | (Raise e, es) => (Raise e, set_eng es w)
      end
  end.

(** [spark.stop()] and [spark_context.stop()]: nothing happens when the
    context has stopped already. *)
Definition stop (s : Session) : M E unit := λ w,
  if bool_decide (sid s ∈ sid <$> live w) then
    let live' := filter (λ s', sid s' ≠ sid s) (live w) in
    (Ok tt, mkWorld (context_stop E (eng w)) live' (created w)
                    (history w ++ [sid <$> live']) (stdout w))
  else (Ok tt, w).

(** [spark_session.conf.get(key)] *)
Definition conf_get (s : Session) (key : string) : M E string :=
  match options s !! key with
  | Some v => ret v
  | None => raise ("java.util.NoSuchElementException: " +:+ key)
  end.

(** [build_spark_session(hdfs_path, file_path)]: a first session probes
    the file size and is stopped, then the sized session is built.
    The context returned is the session's own. *)
Definition build_spark_session (hdfs_path file_path : string)
  : M E (Session * Session * Z) :=
  let! spark := getOrCreate {[ "spark.app.name" := "Project Group 32 HDFSFileSize" ]} in
  let! fileSize := engine_call (hdfs_getLen E hdfs_path file_path) in
  let! _ := stop spark in
  let '(executor_cores, executor_memory) := configure_spark (bytes_to_gb fileSize) in
  let! spark_session := getOrCreate (session_options executor_cores executor_memory) in
  let spark_context := spark_session in
  ret (spark_session, spark_context, fileSize).
End Sessions.

(** ** Loading, filtering, splitting, training, scoring *)

Definition default_seed : Z := 42.
Definition default_test_fraction : Q := 2 # 10.

Section Steps.
Context {E : Engine}.

(** [load_data(spark_session, hdfs_path, file_path, schema)] *)
Definition load_data (spark_session : Session) (hdfs_path file_path : string)
    (schema : option Schema) : M E DataFrame :=
  engine_call (read_json E (hdfs_path +:+ file_path) schema).

(** [filter_data(df)] on the engine: [collect()] runs a job, and the
    counts come back in the engine's order. *)
Definition filter_data_on_engine (df : DataFrame) : M E DataFrame :=
  let! _ := engine_call (run_job E "collect") in
  let! order := engine_read (orderBy_count_desc E) in
  ret (filter_data order df).

(** [df.randomSplit(weights, seed)]: a negative weight is refused (the
    message names the weight, which is left out here); without a seed one
    is drawn from Python's [random]; the engine requires weights of
    positive sum. *)
Definition randomSplit (weights : list Q) (seed : option Z) (df : DataFrame)
  : M E (list DataFrame) :=
  if negb (forallb (Qle_bool 0) weights)
  then raise "[VALUE_NOT_POSITIVE] Value for `weights` must be positive"
  else
    let! seed :=
      match seed with
      | Some s => ret s
      | None => engine_call (λ es, let '(z, es') := random_randint E es in (Ok z, es'))
      end in
    if Qle_bool (foldr Qplus 0%Q weights) 0
    then raise "requirement failed: Sum of weights must be positive"
    else ret (split_cells (rng_double E seed) weights df).

(** [split_data(df, seed, test_fraction)] for a [test_fraction] that is a
    finite float, as the default [0.2] is.  (An [int] gives weights that
    reach the JVM as integers, which refuses them; a NaN passes the check
    of the sign and is refused by the JVM: neither is a [Py.float], the
    rationals [Q].) *)
Definition split_data (df : DataFrame) (seed : Z) (test_fraction : Q)
  : M E (DataFrame * DataFrame) :=
  let! parts := randomSplit [(1 - test_fraction)%Q; test_fraction] (Some seed) df in
  match parts with
  | [train_data; test_data] => ret (train_data, test_data)
  | _ :: _ :: _ :: _ => raise "too many values to unpack (expected 2)"
  | _ =>
      raise ("not enough values to unpack (expected 2, got "
             +:+ pretty (length parts) +:+ ")")
  end.

(** [random_forest(train_data, pre_pipe)] *)
Definition random_forest (train_data : DataFrame) (pre_pipe : list Stage)
  : M E (Model E) :=
  let classifier := RandomForestClassifier "features" "label" 100 in
  engine_call (pipeline_fit E (pre_pipe ++ [classifier]) train_data).

(** [logistic_regression(train_data, pre_pipe)] *)
Definition logistic_regression (train_data : DataFrame) (pre_pipe : list Stage)
  : M E (Model E) :=
  let classifier := LogisticRegression "features" "label" 10 in
  engine_call (pipeline_fit E (pre_pipe ++ [classifier]) train_data).

(** [model_eval(model, test_data)] *)
Definition model_eval (model : Model E) (test_data : DataFrame) : M E Q :=
  engine_call (transform_evaluate E model test_data).
End Steps.

(** ** The timing loop *)

(** The locals of [evaluate_performance] that live across iterations: the
    five arrays, and the names bound inside the loop body and read after
    it ([fileSize], [executor_cores], [executor_memory], [max_cores]). *)
Record Locals := mkLocals {
  overall_exec_time : list Q;
  data_load_time : list Q;
  training_time : list Q;
  evaluation_time : list Q;
  model_accuracy : list Q;
  bound : option (Z * string * string * string)
}.

Definition set_overall_exec_time (i : nat) (v : Q) (st : Locals) : Locals :=
  mkLocals (<[i := v]> (overall_exec_time st)) (data_load_time st) (training_time st)
           (evaluation_time st) (model_accuracy st) (bound st).
Definition set_data_load_time (i : nat) (v : Q) (st : Locals) : Locals :=
  mkLocals (overall_exec_time st) (<[i := v]> (data_load_time st)) (training_time st)
           (evaluation_time st) (model_accuracy st) (bound st).
Definition set_training_time (i : nat) (v : Q) (st : Locals) : Locals :=
  mkLocals (overall_exec_time st) (data_load_time st) (<[i := v]> (training_time st))
           (evaluation_time st) (model_accuracy st) (bound st).
Definition set_evaluation_time (i : nat) (v : Q) (st : Locals) : Locals :=
  mkLocals (overall_exec_time st) (data_load_time st) (training_time st)
           (<[i := v]> (evaluation_time st)) (model_accuracy st) (bound st).
Definition set_model_accuracy (i : nat) (v : Q) (st : Locals) : Locals :=
  mkLocals (overall_exec_time st) (data_load_time st) (training_time st)
           (evaluation_time st) (<[i := v]> (model_accuracy st)) (bound st).
Definition set_bound (b : Z * string * string * string) (st : Locals) : Locals :=
  mkLocals (overall_exec_time st) (data_load_time st) (training_time st)
           (evaluation_time st) (model_accuracy st) (Some b).

(** [np.zeros(n)] five times. *)
Definition zeros (n : nat) : list Q := replicate n 0%Q.
Definition init_locals (n : nat) : Locals :=
  mkLocals (zeros n) (zeros n) (zeros n) (zeros n) (zeros n) None.

(** [a.mean()]: the sum over the length. *)
Definition sum (a : list Q) : Q := foldr Qplus 0%Q a.
Definition mean (a : list Q) : Q := (sum a / inject_Z (Z.of_nat (length a)))%Q.

(** The list [evaluate_performance] returns. *)
Record Perf := mkPerf {
  perf_size_gb : Q;
  perf_executor_cores : string;
  perf_executor_memory : string;
  perf_max_cores : string;
  perf_data_load_time : Q;
  perf_training_time : Q;
  perf_evaluation_time : Q;
  perf_overall_exec_time : Q;
  perf_model_accuracy : Q
}.

Section Harness.
Context {E : Engine}.

(** One pass of the body of [for i in range(n)]. *)
Definition iteration (hdfs_path file_path : string) (schema : option Schema)
    (i : nat) (st : Locals) : M E Locals :=
  let! _ := print ("File " +:+ file_path +:+ ", run " +:+ pretty i) in
  let! start_time := engine_read (time_time E) in
  let! (spark_session, spark_context, fileSize) :=
    build_spark_session hdfs_path file_path in
  let! df := load_data spark_session hdfs_path file_path schema in
  let! df := filter_data_on_engine df in
  let! (train_data, test_data) := split_data df default_seed default_test_fraction in
  let! data_time := engine_read (time_time E) in
  let st := set_data_load_time i (data_time - start_time)%Q st in
  let pre_pipe := pre_processing_pipe in
  let! model := random_forest train_data pre_pipe in
  let! train_time := engine_read (time_time E) in
  let st := set_training_time i (train_time - data_time)%Q st in
  let! accuracy := model_eval model test_data in
  let st := set_model_accuracy i accuracy st in
  let! eval_time := engine_read (time_time E) in
  let st := set_evaluation_time i (eval_time - train_time)%Q st in
  let! executor_cores := conf_get spark_session "spark.executor.cores" in
  let! executor_memory := conf_get spark_session "spark.executor.memory" in
  let! max_cores := conf_get spark_session "spark.cores.max" in
  let! _ := stop spark_context in
  let! end_time := engine_read (time_time E) in
  let st := set_overall_exec_time i (end_time - start_time)%Q st in
  ret (set_bound (fileSize, executor_cores, executor_memory, max_cores) st).

(** [evaluate_performance(hdfs_path, file_path, schema, n)], with
    [verbose=False] as the benchmark cell calls it.  With [n = 0] the
    names bound in the loop body are unbound at the [return]. *)
Definition evaluate_performance (hdfs_path file_path : string)
    (schema : option Schema) (n : nat) : M E Perf :=
  let! st := for_each (seq 0 n) (iteration hdfs_path file_path schema) (init_locals n) in
  match bound st with
  | None => raise "local variable 'fileSize' referenced before assignment"
  | Some (fileSize, executor_cores, executor_memory, max_cores) =>
      ret (mkPerf (bytes_to_gb fileSize) executor_cores executor_memory max_cores
             (mean (data_load_time st)) (mean (training_time st))
             (mean (evaluation_time st)) (mean (overall_exec_time st))
             (mean (model_accuracy st)))
  end.
End Harness.

(** ** The benchmark cell *)

(** A row of [results]: [[file[:-5]] + res]. *)
Record BenchmarkRow := mkRowOf {
  File : string;
  perf : Perf
}.

Definition hdfs_path : string := "hdfs://192.168.2.156:9000".
Definition file_path : string := "/data/reddit/".
Definition files : list string :=
  ["reddit_50k.json"; "reddit_100k.json"; "reddit_200k.json"; "reddit_500k.json";
   "corpus-webis-tldr-17.json"].
Definition schema_v1 : Schema := ["subreddit"; "summary"; "content"].

(** [file[:-5]] *)
Definition drop_last5 (file : string) : string :=
  String.substring 0 (String.length file - 5) file.

Section Benchmark.
Context {E : Engine}.

(** The body of [for file in files], with its [try]/[except]. *)
Definition benchmark_file (n : nat) (file : string) (results : list BenchmarkRow)
  : M E (list BenchmarkRow) :=
  try_except
    (let! res := evaluate_performance hdfs_path (file_path +:+ file) (Some schema_v1) n in
     ret (results ++ [mkRowOf (drop_last5 file) res]))
    (λ e,
     let! _ := print ("Crashed when evaluating " +:+ file +:+ " with error:") in
     let! _ := print e in
     ret results).

Definition benchmark_loop (n : nat) (files : list string) (results : list BenchmarkRow)
  : M E (list BenchmarkRow) :=
  for_each files (benchmark_file n) results.

(** The cell: [results = list()], five files, [n=5]. *)
Definition benchmark : M E (list BenchmarkRow) := benchmark_loop 5 files [].
End Benchmark.

(** ** A scripted engine

    A small deterministic engine on which the harness can be run: the clock
    counts seconds, every external call takes a fixed time, and the fit
    whose number is [fit_fails_at] aborts. *)

Module Scripted.

Record State := mkState {
  clock : Z;
  fits : nat
}.

Definition tick (d : Z) (es : State) : State := mkState (clock es + d) (fits es).

Definition posts : DataFrame :=
  [ mkRow (Some "AskReddit") (Some "tl;dr a") (Some "text a");
    mkRow (Some "AskReddit") (Some "tl;dr b") (Some "text b");
    mkRow (Some "funny") (Some "tl;dr c") (Some "text c");
    mkRow None (Some "tl;dr d") (Some "text d");
    mkRow (Some "funny") None (Some "text e");
    mkRow (Some "AskReddit") (Some "tl;dr f") (Some "text f");
    mkRow (Some "pics") (Some "tl;dr g") None;
    mkRow (Some "pics") (Some "tl;dr h") (Some "text h") ].

(** Lengths in bytes that give the sizes in GB of the table the notebook
    printed. *)
Definition file_sizes : gmap string Z :=
  <["/data/reddit/reddit_50k.json" := 392090624%Z]>
  (<["/data/reddit/reddit_100k.json" := 784153613%Z]>
  (<["/data/reddit/reddit_200k.json" := 1564324797%Z]>
  (<["/data/reddit/reddit_500k.json" := 3905283831%Z]>
  (<["/data/reddit/corpus-webis-tldr-17.json" := 19620286586%Z]> ∅)))).

Definition getLen (hdfs_path file_path : string) (es : State) : Outcome Z * State :=
  match file_sizes !! file_path with
  | Some size => (Ok size, tick 1 es)
  | None => (Raise ("File does not exist: " +:+ file_path), tick 1 es)
  end.

Definition draw (seed : Z) (k : nat) : Q :=
  Qmake ((seed + 7 * Z.of_nat k) mod 10) 10.

Definition fit (fit_fails_at : option nat) (stages : list Stage) (train : DataFrame)
    (es : State) : Outcome unit * State :=
  if bool_decide (fit_fails_at = Some (fits es))
  then (Raise "Job aborted due to stage failure", mkState (clock es + 4) (S (fits es)))
  else (Ok tt, mkState (clock es + 10 + Z.of_nat (fits es)) (S (fits es))).

Definition engine (fit_fails_at : option nat) : Engine :=
  {| ES := State;
     Model := unit;
     time_time := λ es, inject_Z (clock es);
     hdfs_getLen := getLen;
     context_start := λ _ es, (Ok tt, tick 2 es);
     context_stop := tick 1;
     read_json := λ _ _ es, (Ok posts, tick 3 es);
     run_job := λ _ es, (Ok tt, tick 1 es);
     orderBy_count_desc := λ _, sort_count_desc;
     rng_double := draw;
     random_randint := λ es, (clock es, es);
     pipeline_fit := fit fit_fails_at;
     transform_evaluate := λ _ test es, (Ok (Qmake 1 (Pos.of_nat (S (fits es)))), tick 2 es) |}.

Definition start (fit_fails_at : option nat) : World (engine fit_fails_at) :=
  mkWorld (E := engine fit_fails_at) (mkState 0 0) [] 0 [] [].

End Scripted.

(** ** A scripted engine with ties

    The scripted engine on a file of 26 subreddits with one post each,
    and with an [orderBy] that sorts by count and leaves equal counts in
    the order in which they come or in the reverse order, by turns. *)

Module Ties.

Definition posts : DataFrame :=
  (λ k, mkRow (Some ("r/" +:+ pretty k)) (Some "tl;dr") (Some "text")) <$> seq 0 26.

Definition orderBy (es : Scripted.State) (l : list (option string * nat))
  : list (option string * nat) :=
  if Nat.even (Scripted.fits es) then sort_count_desc l else sort_count_desc (reverse l).

Definition engine : Engine :=
  {| ES := Scripted.State;
     Model := unit;
     time_time := λ es, inject_Z (Scripted.clock es);
     hdfs_getLen := Scripted.getLen;
     context_start := λ _ es, (Ok tt, Scripted.tick 2 es);
     context_stop := Scripted.tick 1;
     read_json := λ _ _ es, (Ok posts, Scripted.tick 3 es);
     run_job := λ _ es, (Ok tt, Scripted.tick 1 es);
     orderBy_count_desc := orderBy;
     rng_double := Scripted.draw;
     random_randint := λ es, (Scripted.clock es, es);
     pipeline_fit := Scripted.fit None;
     transform_evaluate :=
       λ _ test es, (Ok (Qmake 1 (Pos.of_nat (S (Scripted.fits es)))), Scripted.tick 2 es) |}.

Definition start : World engine :=
  mkWorld (E := engine) (Scripted.mkState 0 0) [] 0 [] [].

End Ties.

(** ** Vocabulary of the properties *)

(** The measurements of one repetition. *)
Record RunMetrics := mkRunMetrics {
  load_time : Q;
  train_time : Q;
  eval_time : Q;
  total_time : Q;
  accuracy : Q
}.

Global Instance Q_inhabited : Inhabited Q := populate 0%Q.

(** What iteration [i] has left at index [i] of the five arrays. *)
Definition recorded (i : nat) (st : Locals) : RunMetrics :=
  mkRunMetrics (data_load_time st !!! i) (training_time st !!! i)
               (evaluation_time st !!! i) (overall_exec_time st !!! i)
               (model_accuracy st !!! i).

(** Writing the measurements [m] at index [i], all five arrays at once. *)
Definition store (i : nat) (m : RunMetrics) (st : Locals) : Locals :=
  mkLocals (<[i := total_time m]> (overall_exec_time st))
           (<[i := load_time m]> (data_load_time st))
           (<[i := train_time m]> (training_time st))
           (<[i := eval_time m]> (evaluation_time st))
           (<[i := accuracy m]> (model_accuracy st))
           (bound st).

(** The arrays hold the measurements [ms] followed by zeros, [n] entries in all. *)
Definition holds (n : nat) (ms : list RunMetrics) (st : Locals) : Prop :=
  overall_exec_time st = (total_time <$> ms) ++ zeros (n - length ms) ∧
  data_load_time st = (load_time <$> ms) ++ zeros (n - length ms) ∧
  training_time st = (train_time <$> ms) ++ zeros (n - length ms) ∧
  evaluation_time st = (eval_time <$> ms) ++ zeros (n - length ms) ∧
  model_accuracy st = (accuracy <$> ms) ++ zeros (n - length ms).

(** The five averages of [res] are the arithmetic means of [ms]. *)
Definition averages (ms : list RunMetrics) (res : Perf) : Prop :=
  perf_data_load_time res = mean (load_time <$> ms) ∧
  perf_training_time res = mean (train_time <$> ms) ∧
  perf_evaluation_time res = mean (eval_time <$> ms) ∧
  perf_overall_exec_time res = mean (total_time <$> ms) ∧
  perf_model_accuracy res = mean (accuracy <$> ms).

Section Vocabulary.
Context {E : Engine}.

(** The measurements of the repetitions [i], [i+1], ... (at most [k] of
    them) of one dataset, run one after the other from the locals [st]
    and the world [w], up to the first repetition that raises. *)
Fixpoint run_metrics (hdfs_path file_path : string) (schema : option Schema)
    (i k : nat) (st : Locals) (w : World E) : list RunMetrics :=
  match k with
  | 0 => []
  | S k' =>
      match iteration hdfs_path file_path schema i st w with
      | (Ok st', w') =>
          recorded i st' :: run_metrics hdfs_path file_path schema (S i) k' st' w'
      | (Raise _, _) => []
      end
  end.

(** Weakest precondition of a computation, for a postcondition on the
    value it returns and one on the exception it raises. *)
Definition wp {A} (m : M E A) (Qok : A → World E → Prop)
    (Qerr : string → World E → Prop) (w : World E) : Prop :=
  match m w with
  | (Ok a, w') => Qok a w'
  | (Raise e, w') => Qerr e w'
  end.

(** At most one session is live, now and at every moment logged. *)
Definition calm (w : World E) : Prop :=
  length (live w) ≤ 1 ∧ Forall (λ ids : list nat, length ids ≤ 1) (history w).

(** A computation that starts and stops no session. *)
Definition neutral {A} (m : M E A) : Prop :=
  ∀ w, live (m w).2 = live w ∧ history (m w).2 = history w ∧
       created (m w).2 = created w.

(** The steps of a pass up to its split, the first six of [iteration]:
    the rows the pass loads, what the filter keeps of them, and the two
    sides of the split. *)
Definition split_of_pass (hdfs_path file_path : string) (schema : option Schema)
    (i : nat) : M E (DataFrame * DataFrame * DataFrame * DataFrame) :=
  let! _ := print ("File " +:+ file_path +:+ ", run " +:+ pretty i) in
  let! start_time := engine_read (time_time E) in
  let! (spark_session, spark_context, fileSize) :=
    build_spark_session hdfs_path file_path in
  let! loaded := load_data spark_session hdfs_path file_path schema in
  let! df := filter_data_on_engine loaded in
  let! (train_data, test_data) := split_data df default_seed default_test_fraction in
  ret (loaded, df, train_data, test_data).

(** The rest of a pass that returns: in the world [u] that the split
    left, the pipeline is fitted on [train_data], the model is scored on
    [test_data], and the accuracy is stored at index [i]. *)
Definition fits_and_scores (train_data test_data : DataFrame) (u : World E)
    (i : nat) (st st' : Locals) : Prop :=
  ∃ model v accuracy v',
    random_forest train_data pre_processing_pipe u = (Ok model, v) ∧
    model_eval model test_data v = (Ok accuracy, v') ∧
    model_accuracy st' = <[i := accuracy]> (model_accuracy st).

(** The two lines the [except] branch prints. *)
Definition crash_log (file e : string) (w : World E) : World E :=
  mkWorld (eng w) (live w) (created w) (history w)
          (stdout w ++ ["Crashed when evaluating " +:+ file +:+ " with error:"; e]).
End Vocabulary.

(** ** Vocabulary of the further properties *)

(** Thirty subreddits, the [k]-th with [k+1] complete posts. *)
Definition thirty_subreddits : DataFrame :=
  mjoin ((λ k, replicate (S k)
                 (mkRow (Some ("r/" +:+ pretty k)) (Some "tl;dr") (Some "text")))
         <$> seq 0 30).

(** Comparisons of rationals can be decided. *)
Global Instance Qle_decision (x y : Q) : Decision (x <= y)%Q.
Proof.
  destruct (Qlt_le_dec y x) as [H|H]; [right|left]; [by apply Qlt_not_le|done].
Defined.

Global Instance Qlt_decision (x y : Q) : Decision (x < y)%Q.
Proof.
  destruct (Qlt_le_dec x y) as [H|H]; [left|right]; [done|by apply Qle_not_lt].
Defined.

(** The names bound in the loop body ([fileSize], [executor_cores],
    [executor_memory], [max_cores]) are a file length the probe read and
    the options sized for it. *)
Definition sized_bound (E : Engine) (hp fp : string)
    (b : Z * string * string * string) : Prop :=
  sized_options b.1.1.1 !! "spark.executor.cores" = Some b.1.1.2 ∧
  sized_options b.1.1.1 !! "spark.executor.memory" = Some b.1.2 ∧
  sized_options b.1.1.1 !! "spark.cores.max" = Some b.2 ∧
  ∃ es es', hdfs_getLen E hp fp es = (Ok b.1.1.1, es').

(** A row of the benchmark that stands for one of the files, with the
    size in GB of a length the probe read for that file and the options
    sized for that length. *)
Definition row_sized (E : Engine) (files : list string) (row : BenchmarkRow) : Prop :=
  ∃ file fileSize,
    file ∈ files ∧ File row = drop_last5 file ∧
    perf_size_gb (perf row) = bytes_to_gb fileSize ∧
    sized_bound E hdfs_path (file_path +:+ file)
      (fileSize, perf_executor_cores (perf row), perf_executor_memory (perf row),
       perf_max_cores (perf row)).

(** The columns a stage reads and the columns it adds; the classifiers
    add their default output columns. *)
Definition stage_reads (s : Stage) : list string :=
  match s with
  | Tokenizer i _ | StopWordsRemover i _ | HashingTF i _ _ | IDF i _
  | StringIndexer i _ _ => [i]
  | VectorAssembler inputCols _ => inputCols
  | RandomForestClassifier featuresCol labelCol _
  | LogisticRegression featuresCol labelCol _ => [featuresCol; labelCol]
  end.

Definition stage_writes (s : Stage) : list string :=
  match s with
  | Tokenizer _ o | StopWordsRemover _ o | HashingTF _ o _ | IDF _ o
  | StringIndexer _ o _ | VectorAssembler _ o => [o]
  | RandomForestClassifier _ _ _ | LogisticRegression _ _ _ =>
      ["rawPrediction"; "probability"; "prediction"]
  end.

(** The check of a pipeline against the columns of its input, stage by
    stage: a stage must find the columns it reads and must not find the
    columns it adds. *)
Fixpoint transformSchema (stages : list Stage) (columns : list string)
  : option (list string) :=
  match stages with
  | [] => Some columns
  | s :: rest =>
      if forallb (λ c, bool_decide (c ∈ columns)) (stage_reads s)
         && forallb (λ c, bool_decide (c ∉ columns)) (stage_writes s)
      then transformSchema rest (columns ++ stage_writes s)
      else None
  end.

(** The columns of
    [MulticlassClassificationEvaluator(labelCol="label", predictionCol="prediction")]
    in [model_eval]. *)
Definition evaluator_columns : list string := ["label"; "prediction"].

(** A clock that no call of the engine sets back. *)
Definition steady_clock (E : Engine) : Prop :=
  (∀ hp fp es, time_time E es <= time_time E (hdfs_getLen E hp fp es).2)%Q ∧
  (∀ opts es, time_time E es <= time_time E (context_start E opts es).2)%Q ∧
  (∀ es, time_time E es <= time_time E (context_stop E es))%Q ∧
  (∀ path schema es, time_time E es <= time_time E (read_json E path schema es).2)%Q ∧
  (∀ job es, time_time E es <= time_time E (run_job E job es).2)%Q ∧
  (∀ stages train es,
     time_time E es <= time_time E (pipeline_fit E stages train es).2)%Q ∧
  (∀ model test es,
     time_time E es <= time_time E (transform_evaluate E model test es).2)%Q.

(** A computation after which the clock is not earlier than before. *)
Definition advances {E : Engine} {A} (m : M E A) : Prop :=
  ∀ w, (time_time E (eng w) <= time_time E (eng (m w).2))%Q.

(** The durations of a repetition are not negative, and no phase takes
    longer than the whole. *)
Definition sound_durations (m : RunMetrics) : Prop :=
  (0 <= load_time m <= total_time m ∧ 0 <= train_time m <= total_time m ∧
   0 <= eval_time m <= total_time m)%Q.

(** * Properties *)

(** ** Rounding to binary64 *)

Section Rounding.
Local Open Scope Z_scope.
Import Py.

Lemma round_half_even_lower m s :
  0 ≤ m → m / 2 ^ s * 2 ^ s ≤ round_half_even m s.
Proof.
  intros Hm. unfold round_half_even.
  assert (0 ≤ 2 ^ s) by (apply Z.pow_nonneg; lia).
  destruct (_ || _); lia.
Qed.

Lemma round_half_even_upper m s :
  0 ≤ m → round_half_even m s ≤ (m / 2 ^ s + 1) * 2 ^ s.
Proof.
  intros Hm. unfold round_half_even.
  assert (0 ≤ 2 ^ s) by (apply Z.pow_nonneg; lia).
  destruct (_ || _); lia.
Qed.

Lemma round_half_even_mono m1 m2 s :
  0 ≤ s → 0 ≤ m1 ≤ m2 → round_half_even m1 s ≤ round_half_even m2 s.
Proof.
  intros Hs [H1 H12].
  assert (HP : 0 < 2 ^ s) by (apply Z.pow_pos_nonneg; lia).
  assert (Hq : m1 / 2 ^ s ≤ m2 / 2 ^ s) by (apply Z.div_le_mono; lia).
  destruct (Z.eq_dec (m1 / 2 ^ s) (m2 / 2 ^ s)) as [Heq|Hne].
  - assert (Hr : m1 mod 2 ^ s ≤ m2 mod 2 ^ s).
    { pose proof (Z.div_mod m1 (2 ^ s)). pose proof (Z.div_mod m2 (2 ^ s)).
      rewrite Heq in *. lia. }
    unfold round_half_even. rewrite Heq.
    destruct (2 ^ (s - 1) <? m1 mod 2 ^ s) eqn:Ha; simpl.
    + assert ((2 ^ (s - 1) <? m2 mod 2 ^ s) = true) as -> by lia. simpl. lia.
    + destruct ((m1 mod 2 ^ s =? 2 ^ (s - 1)) && Z.odd (m2 / 2 ^ s)) eqn:Hb.
      * apply andb_prop in Hb as [Hb1 Hb2]. rewrite Hb2.
        destruct (2 ^ (s - 1) <? m2 mod 2 ^ s) eqn:Hc; simpl; [lia|].
        assert ((m2 mod 2 ^ s =? 2 ^ (s - 1)) = true) as -> by lia. simpl. lia.
      * destruct (_ || _); lia.
  - transitivity ((m1 / 2 ^ s + 1) * 2 ^ s); [by apply round_half_even_upper|].
    transitivity ((m2 / 2 ^ s) * 2 ^ s); [|apply round_half_even_lower; lia].
    apply Z.mul_le_mono_nonneg_r; lia.
Qed.

(** Integers of at most 53 bits are binary64 values. *)
Lemma fl53_exact x : Z.abs x < 2 ^ 53 → fl53 x = x.
Proof.
  intros Hx. unfold fl53.
  destruct (Z.eq_dec (Z.abs x) 0) as [H0|H0].
  - rewrite H0. reflexivity.
  - assert (Z.log2 (Z.abs x) < 53) by (apply Z.log2_lt_pow2; lia).
    destruct (Z.leb_spec (Z.log2 (Z.abs x) - 52) 0); [done | lia].
Qed.

Lemma round_half_even_nonneg m s : 0 ≤ m → 0 < s → 0 ≤ round_half_even m s.
Proof.
  intros Hm Hs. etransitivity; [|by apply round_half_even_lower].
  assert (0 < 2 ^ s) by (apply Z.pow_pos_nonneg; lia).
  apply Z.mul_nonneg_nonneg; [apply Z.div_pos|]; lia.
Qed.

Lemma fl53_nonneg x : 0 ≤ x → 0 ≤ fl53 x.
Proof.
  intros Hx. unfold fl53. destruct (Z.leb_spec (Z.log2 (Z.abs x) - 52) 0); [done|].
  pose proof (round_half_even_nonneg (Z.abs x) (Z.log2 (Z.abs x) - 52)).
  destruct (Z.sgn_spec x) as [[? ->]|[[? ->]|[? ->]]]; lia.
Qed.

Lemma fl53_nonpos x : x ≤ 0 → fl53 x ≤ 0.
Proof.
  intros Hx. unfold fl53. destruct (Z.leb_spec (Z.log2 (Z.abs x) - 52) 0); [done|].
  pose proof (round_half_even_nonneg (Z.abs x) (Z.log2 (Z.abs x) - 52)).
  destruct (Z.sgn_spec x) as [[? ->]|[[? ->]|[? ->]]]; lia.
Qed.

Lemma fl53_mono x y : 0 ≤ x ≤ y → fl53 x ≤ fl53 y.
Proof.
  intros [Hx Hxy].
  destruct (Z.eq_dec x 0) as [->|Hx0]; [by apply fl53_nonneg|].
  pose proof (Z.log2_le_mono x y Hxy) as Hlog.
  pose proof (Z.log2_spec x ltac:(lia)) as [Hxl Hxu].
  pose proof (Z.log2_spec y ltac:(lia)) as [Hyl Hyu].
  pose proof (Z.log2_nonneg x) as Hlx.
  unfold fl53. rewrite !Z.abs_eq, !Z.sgn_pos by lia.
  set (sx := Z.log2 x - 52) in *. set (sy := Z.log2 y - 52) in *.
  assert (Hsxy : sx ≤ sy) by (subst sx sy; lia).
  assert (Hylow : 0 < sy → 2 ^ 52 * 2 ^ sy ≤ y / 2 ^ sy * 2 ^ sy).
  { intros Hsy. assert (0 < 2 ^ sy) by (apply Z.pow_pos_nonneg; lia).
    apply Z.mul_le_mono_nonneg_r; [lia|].
    apply Z.div_le_lower_bound; [lia|].
    rewrite Z.mul_comm, <- Z.pow_add_r by lia.
    replace (52 + sy) with (Z.log2 y) by (subst sy; lia). done. }
  assert (Hxup : 0 < sx → (x / 2 ^ sx + 1) * 2 ^ sx ≤ 2 ^ 53 * 2 ^ sx).
  { intros Hsx. assert (0 < 2 ^ sx) by (apply Z.pow_pos_nonneg; lia).
    apply Z.mul_le_mono_nonneg_r; [lia|].
    assert (x / 2 ^ sx < 2 ^ 53); [|lia].
    apply Z.div_lt_upper_bound; [lia|].
    rewrite <- Z.pow_add_r by lia.
    replace (sx + 53) with (Z.succ (Z.log2 x)) by (subst sx; lia). done. }
  destruct (Z.leb_spec sx 0) as [Hsx|Hsx], (Z.leb_spec sy 0) as [Hsy|Hsy];
    rewrite ?Z.mul_1_l.
  - done.
  - etransitivity; [|apply round_half_even_lower; lia].
    etransitivity; [|by apply Hylow].
    assert (x < 2 ^ 53).
    { eapply Z.lt_le_trans; [exact Hxu|]. apply Z.pow_le_mono_r; lia. }
    assert (2 ^ 1 ≤ 2 ^ sy) by (apply Z.pow_le_mono_r; lia).
    change (2 ^ 1) with 2 in *. lia.
  - lia.
  - destruct (Z.eq_dec sx sy) as [<-|Hne].
    + apply round_half_even_mono; lia.
    + etransitivity; [apply round_half_even_upper; lia|].
      etransitivity; [by apply Hxup|].
      etransitivity; [|apply round_half_even_lower; lia].
      etransitivity; [|by apply Hylow].
      rewrite <- !Z.pow_add_r by lia. apply Z.pow_le_mono_r; lia.
Qed.

(** Past 53 bits the nearest binary64 value is taken, ties to even. *)
Example fl53_ties :
  fl53 (2 ^ 53 + 1) = 2 ^ 53 ∧ fl53 (2 ^ 53 + 3) = 2 ^ 53 + 4 ∧
  fl53 (2 ^ 62 + 2 ^ 29 - 1) = 2 ^ 62 + 2 ^ 29 ∧ fl53 (- (2 ^ 53 + 3)) = - (2 ^ 53 + 4).
Proof. repeat split; vm_compute; reflexivity. Qed.

Lemma fl53_opp x : fl53 (- x) = - fl53 x.
Proof.
  unfold fl53. rewrite Z.abs_opp, Z.sgn_opp.
  destruct (Z.log2 (Z.abs x) - 52 <=? 0); lia.
Qed.

Lemma fl53_abs x : Z.abs (fl53 x) = fl53 (Z.abs x).
Proof.
  destruct (Z.abs_spec x) as [[Hx ->]|[Hx ->]].
  - apply Z.abs_eq. by apply fl53_nonneg.
  - rewrite fl53_opp. apply Z.abs_neq. apply fl53_nonpos. lia.
Qed.

(** The rounded magnitude reaches [P], a value with a greatest integer [t]
    that rounds below it, exactly from [t + 1] on. *)
Lemma fl53_reaches (t P : Z) :
  0 ≤ t → fl53 t < P → fl53 (t + 1) = P →
  ∀ x, P ≤ Z.abs (fl53 x) ↔ t < Z.abs x.
Proof.
  intros Ht Hbelow Hat x. rewrite fl53_abs.
  pose proof (Z.abs_nonneg x) as Hx. split.
  - intros HP. destruct (Z.lt_ge_cases t (Z.abs x)) as [|Hle]; [done|].
    pose proof (fl53_mono (Z.abs x) t). lia.
  - intros Hlt. rewrite <- Hat. apply fl53_mono. lia.
Qed.

(** Rounding reaches [2^1044], [2^1053] and [2^1054] half a unit in the
    last place below them. *)
Lemma fl53_reaches_1044 x : 2 ^ 1044 ≤ Z.abs (fl53 x) ↔ 2 ^ 1044 - 2 ^ 990 ≤ Z.abs x.
Proof.
  rewrite (fl53_reaches (2 ^ 1044 - 2 ^ 990 - 1) (2 ^ 1044)); [lia|..];
    vm_compute; congruence.
Qed.

Lemma fl53_reaches_1053 x : 2 ^ 1053 ≤ Z.abs (fl53 x) ↔ 2 ^ 1053 - 2 ^ 999 ≤ Z.abs x.
Proof.
  rewrite (fl53_reaches (2 ^ 1053 - 2 ^ 999 - 1) (2 ^ 1053)); [lia|..];
    vm_compute; congruence.
Qed.

Lemma fl53_reaches_1054 x : 2 ^ 1054 ≤ Z.abs (fl53 x) ↔ 2 ^ 1054 - 2 ^ 1000 ≤ Z.abs x.
Proof.
  rewrite (fl53_reaches (2 ^ 1054 - 2 ^ 1000 - 1) (2 ^ 1054)); [lia|..];
    vm_compute; congruence.
Qed.
End Rounding.

(** ** The sizing heuristic *)

Section SizingProperties.
Local Open Scope Z_scope.

Lemma configure_spark_cores gb :
  (configure_spark gb).1 = next_even (Py.int (Py.mul_int gb core_factor) + 2).
Proof. reflexivity. Qed.

Lemma configure_spark_memory gb :
  (configure_spark gb).2 = Py.str (executor_memory_gb (configure_spark gb).1) +:+ "g".
Proof. reflexivity. Qed.

Lemma raw_cores_of_bytes b :
  Py.int (Py.mul_int (bytes_to_gb b) core_factor) = Z.quot (Py.fl53 b * 2) (2 ^ 30).
Proof. reflexivity. Qed.

Lemma next_even_even c : Z.Even (next_even c).
Proof.
  unfold next_even. destruct (Z.eqb_spec (c mod 2) 0) as [H|H]; simpl.
  - exists (c / 2). pose proof (Z.div_mod c 2). lia.
  - exists (c / 2 + 1). pose proof (Z.div_mod c 2). pose proof (Z.mod_pos_bound c 2). lia.
Qed.

Lemma next_even_ge c : c ≤ next_even c.
Proof. unfold next_even. destruct (negb _); lia. Qed.

Lemma next_even_mono c d : c ≤ d → next_even c ≤ next_even d.
Proof.
  intros Hcd. unfold next_even.
  destruct (Z.eqb_spec (c mod 2) 0) as [Hc|Hc], (Z.eqb_spec (d mod 2) 0) as [Hd|Hd];
    simpl; try lia.
  pose proof (Z.div_mod c 2). pose proof (Z.div_mod d 2).
  pose proof (Z.mod_pos_bound c 2). lia.
Qed.

Lemma next_even_le_2 c : c ≤ 2 → next_even c ≤ 2.
Proof. intros Hc. transitivity (next_even 2); [by apply next_even_mono | done]. Qed.

Lemma raw_cores_nonneg b : 0 ≤ b → 0 ≤ Z.quot (Py.fl53 b * 2) (2 ^ 30).
Proof.
  intros Hb. pose proof (fl53_nonneg b Hb).
  rewrite Z.quot_div_nonneg by lia. apply Z.div_pos; lia.
Qed.

Lemma raw_cores_nonpos b : b ≤ 0 → Z.quot (Py.fl53 b * 2) (2 ^ 30) ≤ 0.
Proof.
  intros Hb. pose proof (fl53_nonpos b Hb).
  replace (Py.fl53 b * 2) with (- (- Py.fl53 b * 2)) by lia.
  rewrite Z.quot_opp_l by lia.
  assert (0 ≤ Z.quot (- Py.fl53 b * 2) (2 ^ 30)); [|lia].
  rewrite Z.quot_div_nonneg by lia. apply Z.div_pos; lia.
Qed.

Lemma raw_cores_mono b1 b2 :
  0 ≤ b1 ≤ b2 → Z.quot (Py.fl53 b1 * 2) (2 ^ 30) ≤ Z.quot (Py.fl53 b2 * 2) (2 ^ 30).
Proof.
  intros [H1 H12]. pose proof (fl53_mono b1 b2 (conj H1 H12)).
  pose proof (fl53_nonneg b1 H1).
  rewrite !Z.quot_div_nonneg by lia. apply Z.div_le_mono; lia.
Qed.

(** Scenario A: the 392090624 bytes (0.365 GB) of [reddit_50k]. *)
Example configure_spark_50k : configure_spark (bytes_to_gb 392090624) = (2, "2g").
Proof. vm_compute. reflexivity. Qed.

(** C1: for every byte size [>= 0] the plan
    [configure_spark(bytes_to_gb(byte_size))] has an even number of
    executor cores that is at least 2, and its executor memory is
    [<m>g] for a number of gigabytes [m] between 1 and 4. *)
Theorem sizing_plan_invariant (byte_size : Z) :
  0 ≤ byte_size →
  let plan := configure_spark (bytes_to_gb byte_size) in
  Z.Even plan.1 ∧ 2 ≤ plan.1 ∧
  1 ≤ executor_memory_gb plan.1 ≤ 4 ∧
  plan.2 = Py.str (executor_memory_gb plan.1) +:+ "g".
Proof.
  intros Hb plan. subst plan.
  rewrite configure_spark_cores, raw_cores_of_bytes.
  pose proof (raw_cores_nonneg byte_size Hb) as Hraw.
  pose proof (next_even_ge (Z.quot (Py.fl53 byte_size * 2) (2 ^ 30) + 2)) as Hge.
  split; [apply next_even_even|]. split; [lia|]. split; [|reflexivity].
  unfold executor_memory_gb, memory_factor. lia.
Qed.

Lemma sizing_plan_invariant_witness :
  0 ≤ 392090624 ∧
  let plan := configure_spark (bytes_to_gb 392090624) in
  Z.Even plan.1 ∧ 2 ≤ plan.1 ∧
  1 ≤ executor_memory_gb plan.1 ≤ 4 ∧
  plan.2 = Py.str (executor_memory_gb plan.1) +:+ "g".
Proof. split; [lia | apply (sizing_plan_invariant 392090624); lia]. Defined.

(** C2: the sizing is monotonic: of two byte sizes [>= 0], the larger
    never gets fewer executor cores. *)
Theorem sizing_monotonic (byte_size1 byte_size2 : Z) :
  0 ≤ byte_size1 → byte_size1 ≤ byte_size2 →
  (configure_spark (bytes_to_gb byte_size1)).1 ≤ (configure_spark (bytes_to_gb byte_size2)).1.
Proof.
  intros H1 H12. rewrite !configure_spark_cores, !raw_cores_of_bytes.
  apply next_even_mono. pose proof (raw_cores_mono byte_size1 byte_size2). lia.
Qed.

Lemma sizing_monotonic_witness :
  0 ≤ 392090624 ∧ 392090624 ≤ 19620286586 ∧
  (configure_spark (bytes_to_gb 392090624)).1 ≤ (configure_spark (bytes_to_gb 19620286586)).1.
Proof.
  split; [lia|]. split; [lia|].
  apply (sizing_monotonic 392090624 19620286586); lia.
Defined.

(** C3: scenario B.  For a dataset of 18.27 GB [configure_spark] returns
    38 cores and ["4g"], and the session [build_spark_session] then
    configures has [spark.executor.cores] 4 ([min(executor_cores, 4)])
    and [spark.executor.memory] ["4g"]; likewise for the 19620286586
    bytes of the full corpus. *)
Theorem scenario_B_configuration :
  configure_spark (1827 # 100) = (38, "4g") ∧
  session_options 38 "4g" !! "spark.executor.cores" = Some "4" ∧
  session_options 38 "4g" !! "spark.executor.memory" = Some "4g" ∧
  sized_options 19620286586 !! "spark.executor.cores" = Some "4" ∧
  sized_options 19620286586 !! "spark.executor.memory" = Some "4g".
Proof. repeat split; vm_compute; reflexivity. Qed.

(** C4, as the specification has it, fails: a negative byte size raises
    nothing.  [-2^31] bytes are sized to -2 cores and ["-2g"]. *)
Lemma negative_size_not_rejected :
  - 2 ^ 31 < 0 ∧ SizeEstimator (- 2 ^ 31) = Ok (-2, "-2g") ∧
  ¬ (∀ byte_size, byte_size < 0 → ∃ e, SizeEstimator byte_size = Raise e).
Proof.
  split; [lia|]. split; [vm_compute; reflexivity|].
  intros H. destruct (H (- 2 ^ 31) ltac:(lia)) as [e He]. discriminate He.
Qed.

Lemma bytes_to_gb_raises_iff b :
  bytes_to_gb_raises b = true ↔ 2 ^ 1054 - 2 ^ 1000 ≤ Z.abs b.
Proof.
  unfold bytes_to_gb_raises, Py.truediv_pow2_overflows.
  rewrite Z.leb_le. change (2 ^ (1024 + 30)) with (2 ^ 1054).
  apply fl53_reaches_1054.
Qed.

Lemma bytes_to_mb_raises_iff b :
  bytes_to_mb_raises b = true ↔ 2 ^ 1044 - 2 ^ 990 ≤ Z.abs b.
Proof.
  unfold bytes_to_mb_raises, Py.truediv_pow2_overflows.
  rewrite Z.leb_le. change (2 ^ (1024 + 20)) with (2 ^ 1044).
  apply fl53_reaches_1044.
Qed.

Lemma configure_spark_raises_iff b :
  configure_spark_raises (bytes_to_gb b) = true ↔ 2 ^ 1053 - 2 ^ 999 ≤ Z.abs b.
Proof.
  rewrite <- fl53_reaches_1053.
  unfold configure_spark_raises, Py.mul_int_overflows, bytes_to_gb, Py.truediv_pow2,
    core_factor.
  rewrite Qle_bool_iff. unfold Qle, Qabs, Qmult, inject_Z. cbn [Qnum Qden].
  rewrite Z.abs_mul, Z.mul_1_r.
  change (Z.pos (2 ^ 30 * 1)) with (2 ^ 30). change (Z.abs 2) with 2.
  assert (H : 2 ^ 1024 * 2 ^ 30 = 2 ^ 1053 * 2) by (vm_compute; reflexivity).
  rewrite H. generalize (2 ^ 1053) (Z.abs (Py.fl53 b)). intros P x. lia.
Qed.

Lemma raises_opp b :
  bytes_to_gb_raises (- b) = bytes_to_gb_raises b ∧
  configure_spark_raises (bytes_to_gb (- b)) = configure_spark_raises (bytes_to_gb b).
Proof.
  split; apply eq_true_iff_eq.
  - by rewrite !bytes_to_gb_raises_iff, Z.abs_opp.
  - by rewrite !configure_spark_raises_iff, Z.abs_opp.
Qed.

(** C4, amended: the sizing has no check of the sign of the byte size,
    and a negative size is no error.  It fails only when a float
    overflows: exactly for the sizes of magnitude [2^1053 - 2^999] or
    more, with an [OverflowError], for a size and for its negative alike.
    Every size below that magnitude, negative or not, gets a plan with an
    even number of cores; the count is at least 2 for a size [>= 0] and
    at most 2 for a negative one. *)
Theorem sizing_total (byte_size : Z) :
  (Z.abs byte_size < 2 ^ 1053 - 2 ^ 999 →
   ∃ executor_cores executor_memory,
     SizeEstimator byte_size = Ok (executor_cores, executor_memory) ∧
     Z.Even executor_cores ∧
     executor_memory = Py.str (Z.min executor_cores 4) +:+ "g" ∧
     (0 ≤ byte_size → 2 ≤ executor_cores) ∧
     (byte_size < 0 → executor_cores ≤ 2)) ∧
  (2 ^ 1053 - 2 ^ 999 ≤ Z.abs byte_size →
   ∃ e, SizeEstimator byte_size = Raise e ∧ SizeEstimator (- byte_size) = Raise e ∧
        (e = Py.truediv_overflow_message ∨ e = Py.int_overflow_message)).
Proof.
  pose proof (bytes_to_gb_raises_iff byte_size) as Hgb.
  pose proof (configure_spark_raises_iff byte_size) as Hcs.
  destruct (raises_opp byte_size) as [Hgb' Hcs'].
  unfold SizeEstimator. rewrite Hgb', Hcs'.
  assert (Hlt : 2 ^ 1053 - 2 ^ 999 < 2 ^ 1054 - 2 ^ 1000) by (vm_compute; reflexivity).
  revert Hgb Hcs Hlt.
  generalize (2 ^ 1053 - 2 ^ 999) (2 ^ 1054 - 2 ^ 1000). intros T T' Hgb Hcs Hlt.
  split.
  - intros Hb.
    destruct (bytes_to_gb_raises byte_size); [apply proj1 in Hgb; lia|].
    destruct (configure_spark_raises (bytes_to_gb byte_size)); [apply proj1 in Hcs; lia|].
    exists (configure_spark (bytes_to_gb byte_size)).1,
           (configure_spark (bytes_to_gb byte_size)).2.
    split; [by destruct (configure_spark _)|].
    rewrite configure_spark_memory, configure_spark_cores, raw_cores_of_bytes.
    split; [apply next_even_even|]. split.
    { unfold executor_memory_gb, memory_factor. by rewrite Z.mul_1_r. }
    split; intros Hs.
    + pose proof (raw_cores_nonneg byte_size Hs).
      pose proof (next_even_ge (Z.quot (Py.fl53 byte_size * 2) (2 ^ 30) + 2)). lia.
    + apply next_even_le_2. pose proof (raw_cores_nonpos byte_size). lia.
  - intros Hb.
    destruct (bytes_to_gb_raises byte_size); [by eexists; eauto|].
    destruct (configure_spark_raises (bytes_to_gb byte_size)); [by eexists; eauto|].
    apply proj2 in Hcs. specialize (Hcs Hb). discriminate.
Qed.

Lemma sizing_total_witness :
  (Z.abs (-1) < 2 ^ 1053 - 2 ^ 999 ∧
   ∃ executor_cores executor_memory,
     SizeEstimator (-1) = Ok (executor_cores, executor_memory) ∧
     Z.Even executor_cores ∧
     executor_memory = Py.str (Z.min executor_cores 4) +:+ "g" ∧
     (0 ≤ -1 → 2 ≤ executor_cores) ∧
     (-1 < 0 → executor_cores ≤ 2)) ∧
  (2 ^ 1053 - 2 ^ 999 ≤ Z.abs (2 ^ 1053) ∧
   ∃ e, SizeEstimator (2 ^ 1053) = Raise e ∧ SizeEstimator (- 2 ^ 1053) = Raise e ∧
        (e = Py.truediv_overflow_message ∨ e = Py.int_overflow_message)).
Proof.
  assert (H1 : Z.abs (-1) < 2 ^ 1053 - 2 ^ 999) by (vm_compute; reflexivity).
  assert (H2 : 2 ^ 1053 - 2 ^ 999 ≤ Z.abs (2 ^ 1053)) by (vm_compute; discriminate).
  split.
  - split; [exact H1|]. exact (proj1 (sizing_total (-1)) H1).
  - split; [exact H2|]. exact (proj2 (sizing_total (2 ^ 1053)) H2).
Defined.
End SizingProperties.

(** ** The label filter *)

Global Instance count_desc_total : Total count_desc.
Proof. intros a b. unfold count_desc. lia. Qed.

Global Instance count_desc_trans : Transitive count_desc.
Proof. intros a b c. unfold count_desc. lia. Qed.

Lemma filter_all {A} (P : A → Prop) `{∀ x, Decision (P x)} (l : list A) :
  Forall P l → filter P l = l.
Proof.
  induction 1 as [|x l Hx _ IH]; [done|].
  rewrite filter_cons, decide_True by done. by rewrite IH.
Qed.

Lemma all_not_null_spec r :
  all_not_null r = true ↔
  is_Some (subreddit r) ∧ is_Some (summary r) ∧ is_Some (content r).
Proof.
  unfold all_not_null. rewrite !andb_true_iff, !bool_decide_eq_true. tauto.
Qed.

Lemma isin_spec values r :
  isin values r = true ↔ ∃ c, subreddit r = Some c ∧ Some c ∈ values.
Proof.
  unfold isin. destruct (subreddit r) as [c|].
  - rewrite bool_decide_eq_true. split; [eauto|]. by intros (c' & [= <-] & ?).
  - split; [done|]. by intros (c & ? & _).
Qed.

Lemma groupBy_count_keys df : (groupBy_count df).*1 = remove_dups (subreddit <$> df).
Proof.
  unfold groupBy_count. rewrite <- list_fmap_compose.
  rewrite <- (list_fmap_id (remove_dups _)) at 2. by apply list_fmap_ext.
Qed.

Section FilterProperties.
Variable orderBy_count_desc : list (option string * nat) → list (option string * nat).
Hypothesis orderBy_permutes : ∀ l, orderBy_count_desc l ≡ₚ l.

(** C5: whatever the input, [filter_data] returns no row with a null
    [subreddit], [summary] or [content], and rows of at most 25 distinct
    subreddits; when the null-filtered rows have no more than 25 distinct
    subreddits all of them are kept; and null-filtered rows that are
    empty give an empty result. *)
Theorem filter_data_sound (df : DataFrame) :
  let df_filtered := filter (λ r, all_not_null r = true) df in
  let out := filter_data orderBy_count_desc df in
  (∀ r, r ∈ out →
     is_Some (subreddit r) ∧ is_Some (summary r) ∧ is_Some (content r)) ∧
  length (remove_dups (subreddit <$> out)) ≤ 25 ∧
  (length (remove_dups (subreddit <$> df_filtered)) ≤ 25 → out = df_filtered) ∧
  (df_filtered = [] → out = []).
Proof.
  intros f out. subst out. unfold filter_data. fold f.
  set (counts := orderBy_count_desc (groupBy_count f)).
  set (top := (take 25 counts).*1).
  split; [|split; [|split]].
  - intros r [_ Hr%list_elem_of_filter]%list_elem_of_filter.
    by apply all_not_null_spec, Hr.
  - transitivity (length top).
    + apply submseteq_length, NoDup_submseteq; [apply NoDup_remove_dups|].
      intros k (r & -> & [Hin _]%list_elem_of_filter)%elem_of_remove_dups%list_elem_of_fmap.
      apply isin_spec in Hin as (c & -> & Hc). done.
    + subst top. rewrite length_fmap, length_take. lia.
  - intros Hfew. apply filter_all, Forall_forall. intros r Hr.
    assert (Hlen : length counts ≤ 25).
    { subst counts. rewrite (Permutation_length (orderBy_permutes _)).
      rewrite <- (length_fmap fst), groupBy_count_keys. done. }
    assert (Hkey : subreddit r ∈ top).
    { subst top. rewrite take_ge by done. subst counts.
      rewrite (orderBy_permutes _), groupBy_count_keys.
      apply elem_of_remove_dups, list_elem_of_fmap_2, Hr. }
    apply list_elem_of_filter in Hr as [[[c Hc] _]%all_not_null_spec _].
    apply isin_spec. exists c. by rewrite <- Hc.
  - intros ->. done.
Qed.
End FilterProperties.

(** Scenario C: of 30 subreddits, the [k]-th with [k+1] complete posts,
    the 25 most frequent are kept, each with all its posts. *)
Example filter_data_30_subreddits :
  let post k := mkRow (Some ("r/" +:+ pretty k)) (Some "tl;dr") (Some "text") in
  let df := mjoin ((λ k, replicate (S k) (post k)) <$> seq 0 30) in
  let out := filter_data sort_count_desc df in
  length (remove_dups (subreddit <$> out)) = 25 ∧
  out = filter (λ r, isin ((λ k, Some ("r/" +:+ pretty k)) <$> seq 5 25) r = true) df.
Proof. vm_compute. split; reflexivity. Qed.

Lemma filter_data_sound_witness :
  (∀ l, sort_count_desc l ≡ₚ l) ∧
  let df_filtered := filter (λ r, all_not_null r = true) Scripted.posts in
  let out := filter_data sort_count_desc Scripted.posts in
  (∀ r, r ∈ out →
     is_Some (subreddit r) ∧ is_Some (summary r) ∧ is_Some (content r)) ∧
  length (remove_dups (subreddit <$> out)) ≤ 25 ∧
  (length (remove_dups (subreddit <$> df_filtered)) ≤ 25 → out = df_filtered) ∧
  (df_filtered = [] → out = []).
Proof.
  split; [intros l; apply merge_sort_Permutation|].
  apply (filter_data_sound sort_count_desc).
  intros l; apply merge_sort_Permutation.
Defined.

(** ** Reasoning about runs *)

Section Logic.
Context {E : Engine}.
Implicit Types w : World E.

Lemma wp_ret {A} (a : A) Qok Qerr w : Qok a w → wp (ret a) Qok Qerr w.
Proof. done. Qed.

Lemma wp_raise {A} e (Qok : A → World E → Prop) Qerr w :
  Qerr e w → wp (raise e) Qok Qerr w.
Proof. done. Qed.

Lemma wp_bind {A B} (m : M E A) (k : A → M E B) Qok Qerr w :
  wp m (λ a, wp (k a) Qok Qerr) Qerr w → wp (bind m k) Qok Qerr w.
Proof. unfold wp, bind. by destruct (m w) as [[a|e] w']. Qed.

Lemma wp_mono {A} (m : M E A) (Qok Qok' : A → World E → Prop)
    (Qerr Qerr' : string → World E → Prop) w :
  wp m Qok Qerr w →
  (∀ a w', Qok a w' → Qok' a w') → (∀ e w', Qerr e w' → Qerr' e w') →
  wp m Qok' Qerr' w.
Proof. unfold wp. destruct (m w) as [[a|e] w']; eauto. Qed.

Lemma wp_run {A} (m : M E A) Qok Qerr w :
  wp m Qok Qerr w ↔
  (∀ a w', m w = (Ok a, w') → Qok a w') ∧ (∀ e w', m w = (Raise e, w') → Qerr e w').
Proof.
  unfold wp. destruct (m w) as [[a|e] w']; split.
  - intros H. split; intros ?? [= <- <-]; done.
  - intros [H _]. by apply H.
  - intros H. split; intros ?? [= <- <-]; done.
  - intros [_ H]. by apply H.
Qed.

Lemma wp_print s Qok Qerr w :
  Qok tt (mkWorld (eng w) (live w) (created w) (history w) (stdout w ++ [s])) →
  wp (print s) Qok Qerr w.
Proof. done. Qed.

Lemma wp_engine_read {A} (f : ES E → A) Qok Qerr w :
  Qok (f (eng w)) w → wp (engine_read f) Qok Qerr w.
Proof. done. Qed.

Lemma wp_engine_call {A} (op : ES E → Outcome A * ES E) Qok Qerr w :
  (∀ a es, op (eng w) = (Ok a, es) → Qok a (set_eng es w)) →
  (∀ e es, op (eng w) = (Raise e, es) → Qerr e (set_eng es w)) →
  wp (engine_call op) Qok Qerr w.
Proof.
  intros Hok Herr. unfold wp, engine_call.
  destruct (op (eng w)) as [[a|e] es]; eauto.
Qed.

Lemma wp_try_except {A} (m : M E A) handler Qok Qerr w :
  wp m Qok (λ e, wp (handler e) Qok Qerr) w → wp (try_except m handler) Qok Qerr w.
Proof. unfold wp, try_except. by destruct (m w) as [[a|e] w']. Qed.

(** A loop keeps an invariant that every pass keeps, also when it raises. *)
Lemma wp_for_each {A S} (I : World E → Prop) (body : A → S → M E S) (l : list A) s w :
  (∀ x s w, I w → wp (body x s) (λ _, I) (λ _, I) w) →
  I w → wp (for_each l body s) (λ _, I) (λ _, I) w.
Proof.
  intros Hbody. revert s w. induction l as [|x l IH]; intros s w Hw; simpl.
  - done.
  - apply wp_bind. eapply wp_mono; [by apply Hbody| |done].
    intros s' w' Hw'. by apply IH.
Qed.

Lemma wp_getOrCreate opts Qok Qerr w :
  (∀ s rest, live w = s :: rest → Qok s w) →
  (∀ es, live w = [] → context_start E opts (eng w) = (Ok tt, es) →
     Qok (mkSession (created w) opts)
         (mkWorld es [mkSession (created w) opts] (S (created w))
                  (history w ++ [[created w]]) (stdout w))) →
  (∀ e es, live w = [] → context_start E opts (eng w) = (Raise e, es) →
     Qerr e (set_eng es w)) →
  wp (getOrCreate opts) Qok Qerr w.
Proof.
  intros Hre Hok Herr. unfold wp, getOrCreate.
  destruct (live w) as [|s rest] eqn:Hl; [|by eapply Hre].
  destruct (context_start E opts (eng w)) as [[[]|e] es] eqn:Hs; eauto.
Qed.

Lemma wp_stop s Qok Qerr w :
  (sid s ∈ sid <$> live w →
     Qok tt (mkWorld (context_stop E (eng w)) (filter (λ s', sid s' ≠ sid s) (live w))
               (created w)
               (history w ++ [sid <$> filter (λ s', sid s' ≠ sid s) (live w)])
               (stdout w))) →
  (sid s ∉ sid <$> live w → Qok tt w) →
  wp (stop s) Qok Qerr w.
Proof.
  intros Hin Hout. unfold wp, stop. case_bool_decide; eauto.
Qed.

Lemma wp_conf_get s key Qok Qerr w :
  (∀ v, options s !! key = Some v → Qok v w) →
  (∀ e, options s !! key = None → Qerr e w) →
  wp (conf_get s key) Qok Qerr w.
Proof.
  intros Hok Herr. unfold conf_get. destruct (options s !! key); [apply Hok|apply Herr]; done.
Qed.
End Logic.

(** ** The seeded split *)

Section SplitProperties.
Context {E : Engine}.

Lemma split_cells_two draw a b df :
  split_cells draw [a; b] df =
  [ sample_cell draw 0 (0 + a / (a + (b + 0))) df;
    sample_cell draw (0 + a / (a + (b + 0)))
                     (0 + a / (a + (b + 0)) + b / (a + (b + 0))) df ]%Q.
Proof. reflexivity. Qed.

Lemma fraction_weights_ok (test_fraction : Q) :
  (0 <= test_fraction <= 1)%Q →
  negb (forallb (Qle_bool 0) [(1 - test_fraction)%Q; test_fraction]) = false ∧
  Qle_bool (foldr Qplus 0%Q [(1 - test_fraction)%Q; test_fraction]) 0 = false.
Proof.
  intros [H0 H1]. split.
  - apply negb_false_iff. simpl. rewrite !andb_true_iff.
    split; [|split; [|done]]; apply Qle_bool_iff; lra.
  - simpl. apply not_true_is_false. rewrite Qle_bool_iff. lra.
Qed.

(** With a seed the split reads nothing of the world and leaves it as it is. *)
Lemma split_data_pure df seed test_fraction :
  ∃ r, ∀ w : World E, split_data df seed test_fraction w = (r, w).
Proof.
  unfold split_data, randomSplit.
  destruct (negb (forallb (Qle_bool 0) [(1 - test_fraction)%Q; test_fraction]));
    [by eexists|].
  destruct (Qle_bool (foldr Qplus 0%Q [(1 - test_fraction)%Q; test_fraction]) 0);
    [by eexists|].
  eexists. intros w. unfold bind, ret. rewrite split_cells_two. reflexivity.
Qed.

(** For a fraction between 0 and 1 it returns the two cells. *)
Lemma split_data_returns df seed test_fraction :
  (0 <= test_fraction <= 1)%Q →
  ∃ train test,
    split_cells (rng_double E seed) [(1 - test_fraction)%Q; test_fraction] df
      = [train; test] ∧
    ∀ w : World E, split_data df seed test_fraction w = (Ok (train, test), w).
Proof.
  intros Htf. destruct (fraction_weights_ok test_fraction Htf) as [Hneg Hsum].
  eexists _, _. split; [apply split_cells_two|]. intros w.
  unfold split_data, randomSplit. rewrite Hneg. unfold bind, ret. rewrite Hsum.
  rewrite split_cells_two. reflexivity.
Qed.

(** C6: two calls of [split_data] with the same seed on the same
    DataFrame, in whatever two states of the world, end the same way; for
    a test fraction between 0 and 1 both return the same train and test
    sets, so every row is on the same side both times: the sides are the
    cells of the draws of the generator seeded with [seed]. *)
Theorem split_data_deterministic df seed test_fraction (w1 w2 : World E) :
  (split_data df seed test_fraction w1).1 = (split_data df seed test_fraction w2).1 ∧
  ((0 <= test_fraction <= 1)%Q →
   ∃ train test,
     (split_data df seed test_fraction w1).1 = Ok (train, test) ∧
     (split_data df seed test_fraction w2).1 = Ok (train, test) ∧
     split_cells (rng_double E seed) [(1 - test_fraction)%Q; test_fraction] df
       = [train; test]).
Proof.
  split.
  - destruct (split_data_pure df seed test_fraction) as [r H]. by rewrite !H.
  - intros Htf.
    destruct (split_data_returns df seed test_fraction Htf) as (train & test & Hc & H).
    exists train, test. by rewrite !H.
Qed.

End SplitProperties.

Lemma split_data_deterministic_witness :
  let E := Scripted.engine None in
  let w1 := mkWorld (E := E) (Scripted.mkState 0 0) [] 0 [] [] in
  let w2 := mkWorld (E := E) (Scripted.mkState 8 3) [] 2 [[0]; []] ["File"] in
  (0 <= 2 # 10 <= 1)%Q ∧
  (split_data Scripted.posts 42 (2 # 10) w1).1 = (split_data Scripted.posts 42 (2 # 10) w2).1 ∧
  ∃ train test,
    (split_data Scripted.posts 42 (2 # 10) w1).1 = Ok (train, test) ∧
    (split_data Scripted.posts 42 (2 # 10) w2).1 = Ok (train, test) ∧
    split_cells (rng_double E 42) [(1 - (2 # 10))%Q; (2 # 10)%Q] Scripted.posts
      = [train; test].
Proof.
  intros E w1 w2.
  assert (Htf : (0 <= 2 # 10 <= 1)%Q) by (split; discriminate).
  split; [exact Htf|].
  destruct (split_data_deterministic Scripted.posts 42 (2 # 10) w1 w2) as [Hsame Hcells].
  split; [exact Hsame | exact (Hcells Htf)].
Defined.

(** Without a seed the split follows Python's [random]: on the scripted
    engine two states give two different partitions. *)
Example randomSplit_unseeded_varies :
  let E := Scripted.engine None in
  let w1 := mkWorld (E := E) (Scripted.mkState 0 0) [] 0 [] [] in
  let w2 := mkWorld (E := E) (Scripted.mkState 8 0) [] 0 [] [] in
  (randomSplit [(8 # 10)%Q; (2 # 10)%Q] None Scripted.posts w1).1 ≠
  (randomSplit [(8 # 10)%Q; (2 # 10)%Q] None Scripted.posts w2).1.
Proof. vm_compute. discriminate. Qed.

(** ** Sessions: creation and teardown *)

Ltac wp_step :=
  cbv beta;
  lazymatch goal with
  | |- wp (bind _ _) _ _ _ => apply wp_bind
  | |- wp (ret _) _ _ _ => apply wp_ret
  | |- wp (raise _) _ _ _ => apply wp_raise
  | |- wp (print _) _ _ _ => apply wp_print
  | |- wp (engine_read _) _ _ _ => apply wp_engine_read
  | |- wp (engine_call _) _ _ _ => apply wp_engine_call; intros
  | |- wp (getOrCreate _) _ _ _ => apply wp_getOrCreate; intros
  | |- wp (stop _) _ _ _ => apply wp_stop; intros
  | |- wp (conf_get _ _) _ _ _ => apply wp_conf_get; intros
  | |- wp (let '(_, _) := ?x in _) _ _ _ => destruct x
  end.

Section SessionProperties.
Context {E : Engine}.
Implicit Types w : World E.

Lemma calm_live_cases w : calm w → live w = [] ∨ ∃ s, live w = [s].
Proof.
  intros [Hl _]. destruct (live w) as [|s [|s' l]]; simpl in Hl; eauto. lia.
Qed.

Lemma calm_frame w w' :
  live w' = live w → history w' = history w → calm w → calm w'.
Proof. unfold calm. by intros -> ->. Qed.

Lemma calm_log w l ids st c out :
  calm w → length l ≤ 1 → length ids ≤ 1 →
  calm (mkWorld (E := E) st l c (history w ++ [ids]) out).
Proof.
  intros [_ Hh] Hl Hids. split; simpl; [done|].
  apply Forall_app. split; [done|]. by apply Forall_singleton.
Qed.

Lemma neutral_ret {A} (a : A) : neutral (E := E) (ret a).
Proof. done. Qed.

Lemma neutral_raise {A} e : neutral (E := E) (A := A) (raise e).
Proof. done. Qed.

Lemma neutral_print s : neutral (E := E) (print s).
Proof. done. Qed.

Lemma neutral_engine_read {A} (f : ES E → A) : neutral (engine_read f).
Proof. done. Qed.

Lemma neutral_engine_call {A} (op : ES E → Outcome A * ES E) : neutral (engine_call op).
Proof. intros w. unfold engine_call. by destruct (op (eng w)). Qed.

Lemma neutral_bind {A B} (m : M E A) (k : A → M E B) :
  neutral m → (∀ a, neutral (k a)) → neutral (bind m k).
Proof.
  intros Hm Hk w. unfold bind. specialize (Hm w).
  destruct (m w) as [[a|e] w']; simpl in *; [|done].
  destruct (Hk a w') as (-> & -> & ->). done.
Qed.

Lemma neutral_conf_get s key : neutral (E := E) (conf_get s key).
Proof. unfold conf_get. by destruct (options s !! key). Qed.

Lemma neutral_split_data df seed tf : neutral (E := E) (split_data df seed tf).
Proof.
  intros w. destruct (split_data_pure (E := E) df seed tf) as (r & ->). done.
Qed.

Lemma neutral_load_data s hp fp schema : neutral (E := E) (load_data s hp fp schema).
Proof. apply neutral_engine_call. Qed.

Lemma neutral_filter_data df : neutral (E := E) (filter_data_on_engine df).
Proof.
  unfold filter_data_on_engine.
  repeat (apply neutral_bind; [|intros ?]);
    auto using neutral_engine_call, neutral_engine_read, neutral_ret.
Qed.

Lemma neutral_random_forest train pipe : neutral (E := E) (random_forest train pipe).
Proof. apply neutral_engine_call. Qed.

Lemma neutral_model_eval model test : neutral (E := E) (model_eval model test).
Proof. apply neutral_engine_call. Qed.

(** Past a neutral step the sessions are as before. *)
Lemma wp_neutral_bind {A B} (m : M E A) (k : A → M E B) Qok Qerr w :
  neutral m →
  (∀ a w', live w' = live w → history w' = history w → wp (k a) Qok Qerr w') →
  (∀ e w', live w' = live w → history w' = history w → Qerr e w') →
  wp (bind m k) Qok Qerr w.
Proof.
  intros Hm Hk Herr. apply wp_bind. unfold wp at 1.
  destruct (Hm w) as (Hl & Hh & _). destruct (m w) as [[a|e] w']; simpl in *; eauto.
Qed.

(** The same, with the count of sessions built. *)
Lemma wp_neutral_bind_created {A B} (m : M E A) (k : A → M E B) Qok Qerr w :
  neutral m →
  (∀ a w', live w' = live w → created w' = created w → wp (k a) Qok Qerr w') →
  (∀ e w', live w' = live w → created w' = created w → Qerr e w') →
  wp (bind m k) Qok Qerr w.
Proof.
  intros Hm Hk Herr. apply wp_bind. unfold wp at 1.
  destruct (Hm w) as (Hl & _ & Hc). destruct (m w) as [[a|e] w']; simpl in *; eauto.
Qed.

Lemma getOrCreate_sessions opts w :
  calm w →
  wp (getOrCreate opts) (λ s w', calm w' ∧ live w' = [s])
     (λ _ w', calm w' ∧ live w' = []) w.
Proof.
  intros Hw. apply wp_getOrCreate.
  - intros s rest Hl. split; [done|].
    destruct (calm_live_cases w Hw) as [H|[s' H]]; congruence.
  - intros es Hl _. split; [|done]. apply calm_log; simpl; auto.
  - intros e es Hl _. split; [|done]. by eapply calm_frame.
Qed.

Lemma stop_sessions s w :
  calm w → live w = [s] →
  wp (stop s) (λ _ w', calm w' ∧ live w' = []) (λ _ _, False) w.
Proof.
  intros Hw Hl. apply wp_stop; rewrite Hl; simpl.
  - intros _. rewrite filter_cons, decide_False by (intros H; by apply H).
    split; [|done]. apply calm_log; simpl; auto.
  - intros H. destruct H. apply list_elem_of_singleton. done.
Qed.

Lemma build_spark_session_sessions hp fp w :
  calm w →
  wp (build_spark_session hp fp)
     (λ r w', calm w' ∧ live w' = [r.1.1] ∧ r.1.2 = r.1.1)
     (λ _ w', calm w') w.
Proof.
  intros Hw. unfold build_spark_session.
  apply wp_bind. eapply wp_mono; [by apply getOrCreate_sessions| |by intros ?? []].
  intros spark w1 [Hc1 Hl1]. cbv beta.
  apply wp_neutral_bind; [apply neutral_engine_call| |].
  2: { intros e w2 Hl2 Hh2. by eapply calm_frame. }
  intros fileSize w2 Hl2 Hh2.
  assert (Hc2 : calm w2) by by eapply calm_frame.
  apply wp_bind. eapply wp_mono; [apply stop_sessions; [done|congruence]| |done].
  intros _ w3 [Hc3 Hl3]. cbv beta.
  destruct (configure_spark (bytes_to_gb fileSize)) as [executor_cores executor_memory].
  apply wp_bind. eapply wp_mono; [by apply getOrCreate_sessions| |by intros ?? []].
  intros spark_session w4 [Hc4 Hl4]. by apply wp_ret.
Qed.

(** Every pass of the loop body keeps at most one session live, and a
    pass that returns has stopped its session. *)
Lemma iteration_sessions hp fp schema i st w :
  calm w →
  wp (iteration hp fp schema i st)
     (λ _ w', calm w' ∧ live w' = []) (λ _ w', calm w') w.
Proof.
  intros Hw. unfold iteration.
  apply wp_neutral_bind; [apply neutral_print| |by intros; eapply calm_frame].
  intros _ w1 Hl1 Hh1. assert (Hc1 : calm w1) by by eapply calm_frame.
  apply wp_neutral_bind; [apply neutral_engine_read| |by intros; eapply calm_frame].
  intros start_time w2 Hl2 Hh2. assert (Hc2 : calm w2) by by eapply calm_frame.
  apply wp_bind.
  eapply wp_mono; [by apply build_spark_session_sessions| |done].
  intros [[spark_session spark_context] fileSize] w3 (Hc3 & Hl3 & Hctx).
  simpl in Hl3, Hctx. subst spark_context.
  repeat (apply wp_neutral_bind;
          [first [ apply neutral_load_data | apply neutral_filter_data
                 | apply neutral_split_data | apply neutral_engine_read
                 | apply neutral_random_forest | apply neutral_model_eval
                 | apply neutral_conf_get ]
          | let Hl := fresh "Hl" in let Hh := fresh "Hh" in
            let Hc := fresh "Hc" in
            intros ? ? Hl Hh;
            match type of Hl with
            | live ?w' = live ?w =>
                assert (Hc : calm w') by (by eapply calm_frame);
                assert (live w' = [spark_session]) by congruence
            end
          | by intros; eapply calm_frame ];
          try match goal with |- wp (let '(_, _) := ?x in _) _ _ _ => destruct x end).
  apply wp_bind. eapply wp_mono; [by apply stop_sessions| |done].
  intros _ wy [Hcy Hly]. cbv beta.
  apply wp_neutral_bind; [apply neutral_engine_read| |by intros; eapply calm_frame].
  intros end_time wz Hlz Hhz. apply wp_ret.
  split; [by eapply calm_frame | congruence].
Qed.

(** A pass that raises after it has built its session leaves that session
    live, whatever was live when the pass began; a pass in which the
    building of the session raises ends as the building did. *)
Lemma failed_pass_keeps_its_session hp fp schema i st w :
  calm w →
  let built :=
    build_spark_session hp fp (print ("File " +:+ fp +:+ ", run " +:+ pretty i) w).2 in
  wp (iteration hp fp schema i st)
     (λ _ w', live w' = [])
     (λ e w',
        (∀ spark_session spark_context fileSize w1,
           built = (Ok (spark_session, spark_context, fileSize), w1) →
           live w' = [spark_session]) ∧
        (∀ e1 w1, built = (Raise e1, w1) → e = e1 ∧ w' = w1)) w.
Proof.
  intros Hw built. subst built. unfold iteration.
  set (w0 := (print ("File " +:+ fp +:+ ", run " +:+ pretty i) w).2).
  assert (Hc0 : calm w0) by (by eapply calm_frame).
  apply wp_bind. unfold wp at 1.
  change (print ("File " +:+ fp +:+ ", run " +:+ pretty i) w) with (Ok tt, w0).
  cbv beta iota.
  apply wp_bind, wp_engine_read. cbv beta.
  apply wp_bind. unfold wp at 1.
  pose proof (build_spark_session_sessions hp fp w0 Hc0) as Hb. unfold wp in Hb.
  destruct (build_spark_session hp fp w0) as [[[[spark_session spark_context] fileSize]|e] w3].
  2: { split; [intros ? ? ? ? [=]|]. by intros e1 w1 [= <- <-]. }
  destruct Hb as (Hc3 & Hl3 & Hctx). simpl in Hl3, Hctx. subst spark_context.
  repeat (apply wp_neutral_bind;
          [first [ apply neutral_load_data | apply neutral_filter_data
                 | apply neutral_split_data | apply neutral_engine_read
                 | apply neutral_random_forest | apply neutral_model_eval
                 | apply neutral_conf_get ]
          | let Hl := fresh "Hl" in let Hh := fresh "Hh" in
            intros ? ? Hl Hh;
            match type of Hl with
            | live ?w' = live ?w =>
                assert (live w' = [spark_session]) by congruence
            end
          | intros ? ? ? ?; split; [intros ? ? ? ? [= <- _ _ _]; congruence
                                   | intros ? ? [=] ] ];
          try match goal with |- wp (let '(_, _) := ?x in _) _ _ _ => destruct x end).
  apply wp_bind, wp_stop.
  - intros _. cbv beta. apply wp_bind, wp_engine_read, wp_ret. simpl.
    match goal with
    | |- filter _ (live ?x) = [] => replace (live x) with [spark_session] by congruence
    end.
    rewrite filter_cons, decide_False; [done | intros H'; by apply H'].
  - intros Hnot. destruct Hnot.
    match goal with
    | |- _ ∈ sid <$> live ?x => replace (live x) with [spark_session] by congruence
    end.
    by apply list_elem_of_singleton.
Qed.
End SessionProperties.

(** ** The timing loop *)

Section LoopProperties.
Context {E : Engine}.
Implicit Types w : World E.

Lemma wp_bind_any {A B} (m : M E A) (k : A → M E B) Qok w :
  (∀ a w', wp (k a) Qok (λ _ _, True) w') → wp (bind m k) Qok (λ _ _, True) w.
Proof.
  intros Hk. apply wp_bind. unfold wp at 1. by destruct (m w) as [[a|e] w'].
Qed.

(** A pass that returns has written its measurements at index [i], and
    only there, and has bound the names read after the loop. *)
Lemma iteration_stores hp fp schema i st w :
  wp (iteration hp fp schema i st)
     (λ st' _, ∃ m b, st' = set_bound b (store i m st)) (λ _ _, True) w.
Proof.
  unfold iteration.
  repeat first
    [ apply wp_bind_any; intros ? ?
    | match goal with |- wp (let '(_, _) := ?x in _) _ _ _ => destruct x end ].
  apply wp_ret. by eexists (mkRunMetrics _ _ _ _ _), _.
Qed.

(** The overall time a pass writes is the clock when it ends less the
    clock when it starts. *)
Lemma iteration_overall_time hp fp schema i st w :
  wp (iteration hp fp schema i st)
     (λ st' w', overall_exec_time st' =
                <[i := (time_time E (eng w') - time_time E (eng w))%Q]>
                  (overall_exec_time st))
     (λ _ _, True) w.
Proof.
  unfold iteration.
  apply wp_bind, wp_print. apply wp_bind, wp_engine_read. simpl.
  apply wp_bind_any; intros [[spark_session spark_context] fileSize] w3.
  do 12 (apply wp_bind_any; intros ? ?;
         try match goal with |- wp (let '(_, _) := ?x in _) _ _ _ => destruct x end).
  apply wp_bind, wp_engine_read. by apply wp_ret.
Qed.

Lemma zeros_insert_head (k : nat) (v : Q) : <[0 := v]> (zeros (S k)) = v :: zeros k.
Proof. reflexivity. Qed.

Lemma array_store (f : RunMetrics → Q) n ms m (a : list Q) :
  length ms < n →
  a = (f <$> ms) ++ zeros (n - length ms) →
  <[length ms := f m]> a = (f <$> ms ++ [m]) ++ zeros (n - length (ms ++ [m])) ∧
  <[length ms := f m]> a !!! length ms = f m.
Proof.
  intros Hlt ->.
  replace (n - length ms) with (S (n - length (ms ++ [m])))
    by (rewrite length_app; simpl; lia).
  rewrite insert_app_r_alt by (rewrite length_fmap; lia).
  rewrite length_fmap, Nat.sub_diag, zeros_insert_head.
  split.
  - rewrite fmap_app, <- app_assoc. done.
  - apply list_lookup_total_middle. by rewrite length_fmap.
Qed.

Lemma holds_store n ms m b st :
  length ms < n → holds n ms st →
  holds n (ms ++ [m]) (set_bound b (store (length ms) m st)) ∧
  recorded (length ms) (set_bound b (store (length ms) m st)) = m.
Proof.
  intros Hlt (H1 & H2 & H3 & H4 & H5).
  destruct (array_store total_time n ms m _ Hlt H1) as [H1a H1b].
  destruct (array_store load_time n ms m _ Hlt H2) as [H2a H2b].
  destruct (array_store train_time n ms m _ Hlt H3) as [H3a H3b].
  destruct (array_store eval_time n ms m _ Hlt H4) as [H4a H4b].
  destruct (array_store accuracy n ms m _ Hlt H5) as [H5a H5b].
  split; [by repeat split|].
  unfold recorded; simpl. rewrite H1b, H2b, H3b, H4b, H5b. by destruct m.
Qed.

Lemma holds_init n : holds n [] (init_locals n).
Proof. unfold holds; simpl. by rewrite Nat.sub_0_r. Qed.

(** The loop: when every pass returns, the arrays hold the measurements
    of the passes in order; when a pass raises, the loop ends there with
    the exception and the world of that pass. *)
Lemma loop_holds hp fp schema n k :
  ∀ ms st w, length ms + k ≤ n → holds n ms st →
  let rest := run_metrics hp fp schema (length ms) k st w in
  wp (for_each (seq (length ms) k) (iteration hp fp schema) st)
     (λ st' _, length rest = k ∧ holds n (ms ++ rest) st' ∧
               (0 < k ∨ is_Some (bound st) → is_Some (bound st')))
     (λ e w', length rest < k ∧
              ∃ st1 w1, iteration hp fp schema (length ms + length rest) st1 w1
                        = (Raise e, w'))
     w.
Proof.
  induction k as [|k IH]; intros ms st w Hle Hholds rest; subst rest; simpl.
  - apply wp_ret. rewrite app_nil_r. split; [done|]. split; [done|].
    intros [?|?]; [lia|done].
  - apply wp_bind. unfold wp at 1.
    pose proof (iteration_stores hp fp schema (length ms) st w) as Hst.
    unfold wp in Hst.
    destruct (iteration hp fp schema (length ms) st w) as [[st'|e] w'] eqn:Hit.
    + destruct Hst as (m & b & ->).
      destruct (holds_store n ms m b st ltac:(lia) Hholds) as [Hh Hrec].
      rewrite Hrec.
      specialize (IH (ms ++ [m]) (set_bound b (store (length ms) m st)) w').
      rewrite length_app in IH; simpl in IH.
      replace (length ms + 1) with (S (length ms)) in IH by lia.
      eapply wp_mono; [apply IH; [lia|done]| |]; simpl.
      * intros st'' _ (Hlen & Hh' & Hb). rewrite <- app_assoc in Hh'.
        split; [by rewrite Hlen|]. split; [done|]. intros _.
        apply Hb. by right.
      * intros e w'' (Hlen & st1 & w1 & Hraise). split; [lia|].
        exists st1, w1. rewrite <- Hraise. f_equal. lia.
    + simpl. split; [lia|]. exists st, w. rewrite <- Hit. f_equal. lia.
Qed.

Lemma evaluate_performance_spec hp fp schema n w :
  0 < n →
  let ms := run_metrics hp fp schema 0 n (init_locals n) w in
  wp (evaluate_performance hp fp schema n)
     (λ res _, length ms = n ∧ averages ms res)
     (λ e w', length ms < n ∧
              ∃ st1 w1, iteration hp fp schema (length ms) st1 w1 = (Raise e, w'))
     w.
Proof.
  intros Hn ms. unfold evaluate_performance. apply wp_bind.
  eapply wp_mono;
    [apply (loop_holds hp fp schema n n [] (init_locals n) w);
       [simpl; lia | apply holds_init] | |done].
  fold ms. simpl. intros st' w1 (Hlen & (H1 & H2 & H3 & H4 & H5) & Hb).
  destruct Hb as [b Hb]; [by left|]. rewrite Hb.
  destruct b as [[[fileSize executor_cores] executor_memory] max_cores].
  apply wp_ret. split; [done|].
  rewrite Hlen, Nat.sub_diag in *. simpl in *. rewrite app_nil_r in *.
  unfold averages; simpl. by rewrite H1, H2, H3, H4, H5.
Qed.


(** When every repetition returns, so does [evaluate_performance]. *)
Lemma evaluate_performance_returns hp fp schema n w :
  0 < n →
  length (run_metrics hp fp schema 0 n (init_locals n) w) = n →
  ∃ res w', evaluate_performance hp fp schema n w = (Ok res, w').
Proof.
  intros Hn Hlen.
  pose proof (evaluate_performance_spec hp fp schema n w Hn) as H.
  unfold wp in H. destruct (evaluate_performance hp fp schema n w) as [[res|e] w'].
  - eauto.
  - simpl in H. lia.
Qed.
End LoopProperties.


(** ** The per-dataset loop *)

Section BenchmarkProperties.
Context {E : Engine}.
Implicit Types w : World E.

(** The body of the [for file in files] loop never raises: it returns
    the rows with one more row, or the rows as they were after two lines
    of log. *)
Lemma benchmark_file_cases n file results w :
  match evaluate_performance hdfs_path (file_path +:+ file) (Some schema_v1) n w with
  | (Ok res, w') =>
      benchmark_file n file results w
      = (Ok (results ++ [mkRowOf (drop_last5 file) res]), w')
  | (Raise e, w') =>
      benchmark_file n file results w = (Ok results, crash_log file e w')
  end.
Proof.
  unfold benchmark_file, try_except, bind.
  destruct (evaluate_performance _ _ _ _ _) as [[res|e] w']; [done|].
  unfold print, ret, crash_log; simpl. by rewrite <- app_assoc.
Qed.

(** The rows collected before a file are a prefix of the rows after the
    whole loop, which never raises. *)
Lemma benchmark_loop_extends n files :
  ∀ results w, ∃ rows w',
    benchmark_loop n files results w = (Ok (results ++ rows), w').
Proof.
  induction files as [|file files IH]; intros results w.
  - exists [], w. by rewrite app_nil_r.
  - unfold benchmark_loop; simpl. unfold bind at 1.
    pose proof (benchmark_file_cases n file results w) as Hfile.
    destruct (evaluate_performance _ _ _ _ _) as [[res|e] w1]; rewrite Hfile.
    + destruct (IH (results ++ [mkRowOf (drop_last5 file) res]) w1) as (rows & w' & Hrest).
      exists (mkRowOf (drop_last5 file) res :: rows), w'.
      unfold benchmark_loop in Hrest. rewrite Hrest. f_equal. f_equal.
      by rewrite <- app_assoc.
    + destruct (IH results (crash_log file e w1)) as (rows & w' & Hrest).
      exists rows, w'. apply Hrest.
Qed.

(** C8, amended: for [n >= 1] repetitions, a repetition that raises ends
    the repetitions of its dataset: [evaluate_performance] raises the
    exception of that repetition in the world that repetition left.  The
    loop over the files catches it, prints two lines, keeps the rows
    collected so far unchanged and goes on with the next file.  With
    [n >= 1] a dataset gets a row when all [n] repetitions return, and
    gets none as soon as one of them raises, whatever the repetitions
    before it measured. *)
Theorem failure_skips_the_dataset n file rest results w :
  0 < n →
  let path := file_path +:+ file in
  let ms := run_metrics hdfs_path path (Some schema_v1) 0 n (init_locals n) w in
  ∃ results' w',
    benchmark_file n file results w = (Ok results', w') ∧
    benchmark_loop n (file :: rest) results w = benchmark_loop n rest results' w' ∧
    (∃ rows w'', benchmark_loop n rest results' w' = (Ok (results' ++ rows), w'')) ∧
    ((length ms = n ∧ ∃ res, results' = results ++ [mkRowOf (drop_last5 file) res]) ∨
     (length ms < n ∧ results' = results ∧
      ∃ e st1 w1 w2,
        iteration hdfs_path path (Some schema_v1) (length ms) st1 w1 = (Raise e, w2) ∧
        evaluate_performance hdfs_path path (Some schema_v1) n w = (Raise e, w2) ∧
        w' = crash_log file e w2)).
Proof.
  intros Hn path ms.
  pose proof (benchmark_file_cases n file results w) as Hfile.
  pose proof (evaluate_performance_spec hdfs_path path (Some schema_v1) n w Hn) as Hspec.
  unfold wp in Hspec. fold path in Hfile. fold ms in Hspec.
  destruct (evaluate_performance hdfs_path path (Some schema_v1) n w) as [[res|e] w1].
  - exists (results ++ [mkRowOf (drop_last5 file) res]), w1.
    split; [done|]. split; [unfold benchmark_loop; simpl; unfold bind at 1; by rewrite Hfile|].
    split; [apply benchmark_loop_extends|]. left. destruct Hspec as [Hlen _]. eauto.
  - exists results, (crash_log file e w1).
    split; [done|]. split; [unfold benchmark_loop; simpl; unfold bind at 1; by rewrite Hfile|].
    split; [apply benchmark_loop_extends|]. right.
    destruct Hspec as (Hlen & st1 & w0 & Hit). split; [done|]. split; [done|].
    by exists e, st1, w0, w1.
Qed.
End BenchmarkProperties.

Lemma failure_skips_the_dataset_witness :
  let w := Scripted.start (Some 1) in
  let path := file_path +:+ "reddit_50k.json" in
  let ms := run_metrics hdfs_path path (Some schema_v1) 0 5 (init_locals 5) w in
  0 < 5 ∧
  ∃ results' w',
    benchmark_file 5 "reddit_50k.json" [] w = (Ok results', w') ∧
    benchmark_loop 5 ["reddit_50k.json"; "reddit_100k.json"] [] w
      = benchmark_loop 5 ["reddit_100k.json"] results' w' ∧
    (∃ rows w'', benchmark_loop 5 ["reddit_100k.json"] results' w'
                 = (Ok (results' ++ rows), w'')) ∧
    ((length ms = 5 ∧ ∃ res, results' = [] ++ [mkRowOf (drop_last5 "reddit_50k.json") res]) ∨
     (length ms < 5 ∧ results' = [] ∧
      ∃ e st1 w1 w2,
        iteration hdfs_path path (Some schema_v1) (length ms) st1 w1 = (Raise e, w2) ∧
        evaluate_performance hdfs_path path (Some schema_v1) 5 w = (Raise e, w2) ∧
        w' = crash_log "reddit_50k.json" e w2)).
Proof.
  intros w path ms. split; [lia|].
  apply (failure_skips_the_dataset 5 "reddit_50k.json" ["reddit_100k.json"] [] w). lia.
Defined.

(** On the scripted engine, with files of the sizes of the notebook's run,
    the cell gives the sizing columns of the notebook's table. *)
Example benchmark_sizing_columns :
  ∃ rows, (benchmark (Scripted.start None)).1 = Ok rows ∧
    (λ r, (File r, perf_executor_cores (perf r), perf_executor_memory (perf r),
           perf_max_cores (perf r))) <$> rows
    = [ ("reddit_50k", "2", "2g", "2"); ("reddit_100k", "4", "4g", "4");
        ("reddit_200k", "4", "4g", "4"); ("reddit_500k", "4", "4g", "10");
        ("corpus-webis-tldr-17", "4", "4g", "32") ].
Proof.
  destruct (benchmark (Scripted.start None)).1 as [rows|e] eqn:Hrun.
  - exists rows. split; [done|]. vm_compute in Hrun. injection Hrun as <-.
    vm_compute. reflexivity.
  - vm_compute in Hrun. discriminate Hrun.
Qed.

(** C8, as the specification has it, fails in its last part: on the
    scripted engine whose second fit aborts, the first repetition of
    [reddit_50k] returns and is measured, the second raises, and the
    dataset gets no row, although not all its repetitions failed. *)
Lemma one_failure_drops_the_row :
  let w := Scripted.start (Some 1) in
  let path := file_path +:+ "reddit_50k.json" in
  (benchmark_file 5 "reddit_50k.json" [] w).1 = Ok [] ∧
  length (run_metrics hdfs_path path (Some schema_v1) 0 5 (init_locals 5) w) = 1 ∧
  (∃ st' w', iteration hdfs_path path (Some schema_v1) 0 (init_locals 5) w = (Ok st', w')) ∧
  stdout (benchmark_file 5 "reddit_50k.json" [] w).2 =
    [ "File /data/reddit/reddit_50k.json, run 0";
      "File /data/reddit/reddit_50k.json, run 1";
      "Crashed when evaluating reddit_50k.json with error:";
      "Job aborted due to stage failure" ].
Proof.
  intros w path. split; [vm_compute; reflexivity|]. split; [vm_compute; reflexivity|].
  split; [|vm_compute; reflexivity].
  destruct (iteration hdfs_path path (Some schema_v1) 0 (init_locals 5) w)
    as [[st'|e] w'] eqn:Hit; [eauto|]. vm_compute in Hit. discriminate Hit.
Qed.

(** ** Sessions over a whole run *)

Section TeardownProperties.
Context {E : Engine}.
Implicit Types w : World E.

Lemma evaluate_performance_calm hp fp schema n w :
  calm w → wp (evaluate_performance hp fp schema n) (λ _, calm) (λ _, calm) w.
Proof.
  intros Hw. unfold evaluate_performance. apply wp_bind.
  eapply wp_mono; [apply (wp_for_each calm); [|done]| |done].
  - intros i st w1 Hw1. eapply wp_mono; [by apply iteration_sessions| |done].
    by intros ?? [].
  - intros st w1 Hw1. simpl.
    destruct (bound st) as [[[[fileSize executor_cores] executor_memory] max_cores]|];
      done.
Qed.

Lemma benchmark_file_calm n file results w :
  calm w → wp (benchmark_file n file results) (λ _, calm) (λ _, calm) w.
Proof.
  intros Hw. unfold benchmark_file. apply wp_try_except, wp_bind.
  eapply wp_mono; [by apply evaluate_performance_calm| |].
  - intros res w1 Hw1. by apply wp_ret.
  - intros e w1 Hw1. simpl. repeat wp_step. by eapply calm_frame.
Qed.

Lemma benchmark_loop_calm n files results w :
  calm w → wp (benchmark_loop n files results) (λ _, calm) (λ _, calm) w.
Proof.
  intros Hw. apply (wp_for_each calm); [|done].
  intros file rows w1 Hw1. by apply benchmark_file_calm.
Qed.

(** C9, amended: a repetition in which no step raises has stopped its
    session when it ends.  A repetition that raises after it has built its
    session leaves that session live, whether it began with no session
    live or with the session an earlier failure had left; a repetition in
    which the building of the session itself raises ends as the building
    did.  And at most one session is live at any moment of a repetition
    and of the whole benchmark, whether steps raise or not. *)
Theorem session_stopped_when_no_step_fails hp fp schema i st n files results w :
  calm w →
  let r := iteration hp fp schema i st w in
  let built :=
    build_spark_session hp fp (print ("File " +:+ fp +:+ ", run " +:+ pretty i) w).2 in
  (calm r.2 ∧ ∀ st', r.1 = Ok st' → live r.2 = []) ∧
  (∀ e, r.1 = Raise e →
     (∀ spark_session spark_context fileSize w1,
        built = (Ok (spark_session, spark_context, fileSize), w1) →
        live r.2 = [spark_session]) ∧
     (∀ e1 w1, built = (Raise e1, w1) → r = (Raise e1, w1))) ∧
  calm (benchmark_loop n files results w).2.
Proof.
  intros Hw r built. subst r. split; [|split].
  - pose proof (iteration_sessions hp fp schema i st w Hw) as H. unfold wp in H.
    destruct (iteration hp fp schema i st w) as [[st'|e] w']; simpl.
    + destruct H as [Hc Hl]. split; [done|]. by intros _ _.
    + split; [done|]. intros st' [=].
  - intros e. pose proof (failed_pass_keeps_its_session hp fp schema i st w Hw) as H.
    unfold wp in H. fold built in H.
    destruct (iteration hp fp schema i st w) as [[st'|e'] w']; simpl.
    + intros [=].
    + intros _. destruct H as [Hlive Hraise]. split; [exact Hlive|].
      intros e1 w1 Hb. by destruct (Hraise e1 w1 Hb) as [-> ->].
  - pose proof (benchmark_loop_calm n files results w Hw) as H. unfold wp in H.
    by destruct (benchmark_loop n files results w) as [[rows|e] w'].
Qed.
End TeardownProperties.

Lemma session_stopped_when_no_step_fails_witness :
  let fp := "/data/reddit/reddit_50k.json" in
  let banner := "File " +:+ fp +:+ ", run " +:+ pretty 0 in
  let w_ok := Scripted.start (Some 1) in
  let r_ok := iteration hdfs_path fp (Some schema_v1) 0 (init_locals 5) w_ok in
  let w_left :=
    mkWorld (E := Scripted.engine (Some 0)) (Scripted.mkState 0 0) [mkSession 0 ∅] 1 [[0]] [] in
  let r_left := iteration hdfs_path fp (Some schema_v1) 0 (init_locals 5) w_left in
  (calm w_ok ∧ (∃ st', r_ok.1 = Ok st') ∧
   (calm r_ok.2 ∧ ∀ st', r_ok.1 = Ok st' → live r_ok.2 = []) ∧
   (∀ e, r_ok.1 = Raise e →
      (∀ spark_session spark_context fileSize w1,
         build_spark_session hdfs_path fp (print banner w_ok).2
           = (Ok (spark_session, spark_context, fileSize), w1) →
         live r_ok.2 = [spark_session]) ∧
      (∀ e1 w1, build_spark_session hdfs_path fp (print banner w_ok).2 = (Raise e1, w1) →
                r_ok = (Raise e1, w1))) ∧
   calm (benchmark_loop 5 files [] w_ok).2) ∧
  (calm w_left ∧ sid <$> live w_left = [0] ∧
   r_left.1 = Raise "Job aborted due to stage failure" ∧
   (∃ spark_session spark_context fileSize w1,
      build_spark_session hdfs_path fp (print banner w_left).2
        = (Ok (spark_session, spark_context, fileSize), w1)) ∧
   sid <$> live r_left.2 = [1] ∧
   (calm r_left.2 ∧ ∀ st', r_left.1 = Ok st' → live r_left.2 = []) ∧
   (∀ e, r_left.1 = Raise e →
      (∀ spark_session spark_context fileSize w1,
         build_spark_session hdfs_path fp (print banner w_left).2
           = (Ok (spark_session, spark_context, fileSize), w1) →
         live r_left.2 = [spark_session]) ∧
      (∀ e1 w1, build_spark_session hdfs_path fp (print banner w_left).2 = (Raise e1, w1) →
                r_left = (Raise e1, w1))) ∧
   calm (benchmark_loop 5 files [] w_left).2).
Proof.
  intros fp banner w_ok r_ok w_left r_left.
  assert (Hok : calm w_ok) by (split; simpl; [lia | constructor]).
  assert (Hleft : calm w_left) by (split; simpl; [lia | repeat constructor]).
  split.
  - split; [exact Hok|]. split.
    + subst r_ok.
      destruct (iteration hdfs_path fp (Some schema_v1) 0 (init_locals 5) w_ok)
        as [[st'|e] w'] eqn:Hrun; [by exists st'|].
      vm_compute in Hrun. discriminate Hrun.
    + exact (session_stopped_when_no_step_fails hdfs_path fp (Some schema_v1) 0
               (init_locals 5) 5 files [] w_ok Hok).
  - split; [exact Hleft|]. split; [reflexivity|]. split; [vm_compute; reflexivity|].
    split.
    + destruct (build_spark_session hdfs_path fp (print banner w_left).2)
        as [[[[s c] size]|e] w1] eqn:Hrun.
      * by exists s, c, size, w1.
      * vm_compute in Hrun. discriminate Hrun.
    + split; [vm_compute; reflexivity|].
      exact (session_stopped_when_no_step_fails hdfs_path fp (Some schema_v1) 0
               (init_locals 5) 5 files [] w_left Hleft).
Defined.

(** C9, as the specification has it, fails: nothing stops the session
    when a step raises.  On the scripted engine whose first fit aborts, the
    first repetition ends by that exception with its session (number 1;
    number 0 was the size probe) still live; and when it is the last fit of
    the benchmark that aborts, the session outlives the whole run. *)
Lemma failed_step_leaves_session_live :
  let fp := "/data/reddit/reddit_50k.json" in
  let r := iteration hdfs_path fp (Some schema_v1) 0 (init_locals 5)
                     (Scripted.start (Some 0)) in
  calm (Scripted.start (Some 0)) ∧
  r.1 = Raise "Job aborted due to stage failure" ∧
  sid <$> live r.2 = [1] ∧
  sid <$> live (benchmark (Scripted.start (Some 24))).2 = [49].
Proof.
  intros fp r. split; [split; simpl; [lia | constructor]|].
  repeat split; vm_compute; reflexivity.
Qed.

(** ** The split inside the loop *)

Section HarnessSplit.
Context {E : Engine}.
Implicit Types w : World E.

Lemma wp_bind_eq {A B} (m : M E A) (k : A → M E B) Qok w :
  (∀ a w', m w = (Ok a, w') → wp (k a) Qok (λ _ _, True) w') →
  wp (bind m k) Qok (λ _ _, True) w.
Proof.
  intros Hk. apply wp_bind. unfold wp at 1.
  destruct (m w) as [[a|e] w'] eqn:Hm; [by apply Hk|done].
Qed.

(** A pass that returns has split what it loaded and kept with seed 42
    and weights 0.8 and 0.2, fitted on the first side and scored on the
    second. *)
Lemma iteration_split hp fp schema i st w :
  wp (iteration hp fp schema i st)
     (λ st' _, ∃ loaded df train test u,
        split_of_pass hp fp schema i w = (Ok (loaded, df, train, test), u) ∧
        split_cells (rng_double E 42) [(1 - (2 # 10))%Q; (2 # 10)%Q] df = [train; test] ∧
        fits_and_scores train test u i st st')
     (λ _ _, True) w.
Proof.
  unfold iteration.
  apply wp_bind_eq; intros [] w1 H1.
  apply wp_bind_eq; intros start_time w2 H2.
  apply wp_bind_eq; intros [[spark_session spark_context] fileSize] w3 H3.
  apply wp_bind_eq; intros loaded w4 H4.
  apply wp_bind_eq; intros df w5 H5.
  apply wp_bind_eq; intros [train test] w6 H6.
  apply wp_bind_eq; intros data_time w7 [= <- <-].
  apply wp_bind_eq; intros model w8 H8.
  apply wp_bind_eq; intros train_time w9 [= <- <-].
  apply wp_bind_eq; intros accuracy w10 H10.
  repeat (apply wp_bind_any; intros ? ?).
  apply wp_ret.
  exists loaded, df, train, test, w6. split; [|split].
  - unfold split_of_pass.
    unfold bind at 1. rewrite H1. cbv beta iota.
    unfold bind at 1. rewrite H2. cbv beta iota.
    unfold bind at 1. rewrite H3. cbv beta iota.
    unfold bind at 1. rewrite H4. cbv beta iota.
    unfold bind at 1. rewrite H5. cbv beta iota.
    unfold bind at 1. rewrite H6. reflexivity.
  - destruct (split_data_returns (E := E) df default_seed default_test_fraction)
      as (train' & test' & Hcells & Hsplit); [split; discriminate|].
    rewrite Hsplit in H6. injection H6 as <- <- _. exact Hcells.
  - by exists model, w8, accuracy, w10.
Qed.

(** C10, amended: every repetition that returns, of whatever dataset and
    index, has split with seed 42 and weights 0.8 and 0.2 the rows it kept
    of those it loaded, has fitted the pipeline on the first side and
    scored it on the second; so two repetitions that kept the same rows
    have trained and tested on the same partition.  That the repetitions
    of a dataset keep the same rows is not said: it is the engine that
    loads and orders them. *)
Theorem repetition_split_is_fixed hp fp schema i j st_i st_j w_i w_j st_i' st_j' w_i' w_j' :
  iteration hp fp schema i st_i w_i = (Ok st_i', w_i') →
  iteration hp fp schema j st_j w_j = (Ok st_j', w_j') →
  ∃ loaded_i df_i train_i test_i (u_i : World E) loaded_j df_j train_j test_j
      (u_j : World E),
    split_of_pass hp fp schema i w_i = (Ok (loaded_i, df_i, train_i, test_i), u_i) ∧
    split_of_pass hp fp schema j w_j = (Ok (loaded_j, df_j, train_j, test_j), u_j) ∧
    split_cells (rng_double E 42) [(1 - (2 # 10))%Q; (2 # 10)%Q] df_i
      = [train_i; test_i] ∧
    split_cells (rng_double E 42) [(1 - (2 # 10))%Q; (2 # 10)%Q] df_j
      = [train_j; test_j] ∧
    fits_and_scores train_i test_i u_i i st_i st_i' ∧
    fits_and_scores train_j test_j u_j j st_j st_j' ∧
    (df_i = df_j → train_i = train_j ∧ test_i = test_j).
Proof.
  intros Hi Hj.
  pose proof (iteration_split hp fp schema i st_i w_i) as Hsi.
  pose proof (iteration_split hp fp schema j st_j w_j) as Hsj.
  unfold wp in Hsi, Hsj. rewrite Hi in Hsi. rewrite Hj in Hsj.
  destruct Hsi as (loaded_i & df_i & train_i & test_i & u_i & Hpi & Hci & Hfi).
  destruct Hsj as (loaded_j & df_j & train_j & test_j & u_j & Hpj & Hcj & Hfj).
  exists loaded_i, df_i, train_i, test_i, u_i, loaded_j, df_j, train_j, test_j, u_j.
  repeat (split; [done|]).
  intros Hdf. rewrite Hdf, Hcj in Hci. by injection Hci as <- <-.
Qed.
End HarnessSplit.

Lemma repetition_split_is_fixed_witness :
  let E := Scripted.engine None in
  let w := Scripted.start None in
  let fp := "/data/reddit/reddit_200k.json" in
  ∃ st1 w1 st2 w2,
    iteration hdfs_path fp (Some schema_v1) 0 (init_locals 5) w = (Ok st1, w1) ∧
    iteration hdfs_path fp (Some schema_v1) 1 st1 w1 = (Ok st2, w2) ∧
    ∃ loaded_i df_i train_i test_i (u_i : World E) loaded_j df_j train_j test_j
      (u_j : World E),
      split_of_pass hdfs_path fp (Some schema_v1) 0 w
        = (Ok (loaded_i, df_i, train_i, test_i), u_i) ∧
      split_of_pass hdfs_path fp (Some schema_v1) 1 w1
        = (Ok (loaded_j, df_j, train_j, test_j), u_j) ∧
      split_cells (rng_double E 42) [(1 - (2 # 10))%Q; (2 # 10)%Q] df_i
        = [train_i; test_i] ∧
      split_cells (rng_double E 42) [(1 - (2 # 10))%Q; (2 # 10)%Q] df_j
        = [train_j; test_j] ∧
      fits_and_scores train_i test_i u_i 0 (init_locals 5) st1 ∧
      fits_and_scores train_j test_j u_j 1 st1 st2 ∧
      (df_i = df_j → train_i = train_j ∧ test_i = test_j).
Proof.
  intros E w fp.
  destruct (iteration hdfs_path fp (Some schema_v1) 0 (init_locals 5) w)
    as [[st1|e] w1] eqn:Hrun1; [|vm_compute in Hrun1; discriminate Hrun1].
  destruct (iteration hdfs_path fp (Some schema_v1) 1 st1 w1)
    as [[st2|e] w2] eqn:Hrun2.
  - exists st1, w1, st2, w2. split; [done|]. split; [done|].
    exact (repetition_split_is_fixed hdfs_path fp (Some schema_v1) 0 1 (init_locals 5) st1
             w w1 st1 st2 w1 w2 Hrun1 Hrun2).
  - vm_compute in Hrun1. injection Hrun1 as <- <-.
    vm_compute in Hrun2. discriminate Hrun2.
Defined.

(** C10, as the specification has it, fails: the repetitions of a dataset
    need not train and test on the same partition.  On the scripted engine
    with ties, whose [orderBy] is a descending sort by count in every
    state, the first two repetitions of a dataset load the same 26 rows,
    keep different rows of them (26 subreddits are tied at the cut after
    25), and train on different sets: a row of the first training set is
    in neither set of the second repetition, and another is in its test
    set. *)
Lemma repetitions_split_differently :
  let fp := "/data/reddit/reddit_50k.json" in
  let first := iteration hdfs_path fp (Some schema_v1) 0 (init_locals 5) Ties.start in
  let split_0 := (split_of_pass hdfs_path fp (Some schema_v1) 0 Ties.start).1 in
  let split_1 := (split_of_pass hdfs_path fp (Some schema_v1) 1 first.2).1 in
  (∀ es l, Ties.orderBy es l ≡ₚ l ∧ Sorted count_desc (Ties.orderBy es l)) ∧
  (∃ st1, first.1 = Ok st1 ∧
     ∃ st2 w2, iteration hdfs_path fp (Some schema_v1) 1 st1 first.2 = (Ok st2, w2)) ∧
  ∃ df_0 train_0 test_0 df_1 train_1 test_1,
    split_0 = Ok (Ties.posts, df_0, train_0, test_0) ∧
    split_1 = Ok (Ties.posts, df_1, train_1, test_1) ∧
    df_0 ≠ df_1 ∧ train_0 ≠ train_1 ∧
    (let r := mkRow (Some "r/10") (Some "tl;dr") (Some "text") in
     r ∈ train_0 ∧ (r ∉ train_1) ∧ (r ∉ test_1)) ∧
    (let r := mkRow (Some "r/12") (Some "tl;dr") (Some "text") in
     r ∈ train_0 ∧ r ∈ test_1).
Proof.
  intros fp first split_0 split_1. split; [|split].
  - intros es l. unfold Ties.orderBy, sort_count_desc.
    destruct (Nat.even (Scripted.fits es)).
    + split; [apply merge_sort_Permutation|apply Sorted_merge_sort, _].
    + split; [|apply Sorted_merge_sort, _].
      rewrite merge_sort_Permutation. apply reverse_Permutation.
  - subst first.
    destruct (iteration hdfs_path fp (Some schema_v1) 0 (init_locals 5) Ties.start)
      as [[st1|e] w1] eqn:Hrun1; [|vm_compute in Hrun1; discriminate Hrun1].
    exists st1. split; [done|]. simpl.
    destruct (iteration hdfs_path fp (Some schema_v1) 1 st1 w1)
      as [[st2|e] w2] eqn:Hrun2; [by exists st2, w2|].
    vm_compute in Hrun1. injection Hrun1 as <- <-.
    vm_compute in Hrun2. discriminate Hrun2.
  - subst split_0 split_1 first.
    destruct (split_of_pass hdfs_path fp (Some schema_v1) 0 Ties.start).1
      as [[[[l0 df_0] train_0] test_0]|e] eqn:H0; [|vm_compute in H0; discriminate H0].
    destruct (split_of_pass hdfs_path fp (Some schema_v1) 1
                (iteration hdfs_path fp (Some schema_v1) 0 (init_locals 5) Ties.start).2).1
      as [[[[l1 df_1] train_1] test_1]|e] eqn:H1; [|vm_compute in H1; discriminate H1].
    vm_compute in H0. injection H0 as <- <- <- <-.
    vm_compute in H1. injection H1 as <- <- <- <-.
    eexists _, _, _, _, _, _. split; [vm_compute; reflexivity|].
    split; [vm_compute; reflexivity|].
    split; [discriminate|]. split; [discriminate|].
    split; [|split]; repeat split; apply (bool_decide_unpack _); vm_compute; exact I.
Qed.

(** * Further properties of the code *)

(** ** Sizing: where the core count steps, and what the session gets *)

Section SizingFurther.
Local Open Scope Z_scope.

(** X1: for a file of fewer than [2^53] bytes the core count is twice the
    size in GB rounded half up, plus two: 2 cores below half a GB, 4 from
    there to one and a half, and so on. *)
Theorem cores_closed_form (byte_size : Z) :
  0 ≤ byte_size < 2 ^ 53 →
  (configure_spark (bytes_to_gb byte_size)).1 = 2 * ((byte_size + 2 ^ 29) / 2 ^ 30) + 2.
Proof.
  intros [H0 H53].
  rewrite configure_spark_cores, raw_cores_of_bytes.
  rewrite fl53_exact by (rewrite Z.abs_eq; lia).
  rewrite Z.quot_div_nonneg by lia.
  change (2 ^ 30) with (2 ^ 29 * 2). rewrite Z.div_mul_cancel_r by lia.
  rewrite <- Z.div_div by lia.
  replace (byte_size + 2 ^ 29) with (byte_size + 1 * 2 ^ 29) by lia.
  rewrite Z.div_add by lia.
  set (q := byte_size / 2 ^ 29). unfold next_even.
  pose proof (Z.div_mod q 2). pose proof (Z.mod_pos_bound q 2).
  pose proof (Z.div_mod (q + 1) 2). pose proof (Z.mod_pos_bound (q + 1) 2).
  pose proof (Z.div_mod (q + 2) 2). pose proof (Z.mod_pos_bound (q + 2) 2).
  destruct (Z.eqb_spec ((q + 2) mod 2) 0); simpl; lia.
Qed.

Lemma cores_closed_form_witness :
  0 ≤ 3905283831 < 2 ^ 53 ∧
  (configure_spark (bytes_to_gb 3905283831)).1 = 2 * ((3905283831 + 2 ^ 29) / 2 ^ 30) + 2.
Proof. split; [lia | apply (cores_closed_form 3905283831); lia]. Defined.

Lemma session_options_executor_cores c m :
  session_options c m !! "spark.executor.cores" = Some (Py.str (Z.min c 4)).
Proof. unfold session_options. by simplify_map_eq. Qed.

Lemma session_options_executor_memory c m :
  session_options c m !! "spark.executor.memory" = Some m.
Proof. unfold session_options. by simplify_map_eq. Qed.

Lemma session_options_cores_max c m :
  session_options c m !! "spark.cores.max" = Some (Py.str (Z.min c 32)).
Proof. unfold session_options. by simplify_map_eq. Qed.

(** X2: for every file size [>= 0] the session is given 2 or 4 cores per
    executor, as many GB of executor memory as cores per executor, and a
    ceiling of total cores that is even, at least the cores of one
    executor and at most 32. *)
Theorem session_options_bounds (fileSize : Z) :
  0 ≤ fileSize →
  ∃ c mx,
    sized_options fileSize !! "spark.executor.cores" = Some (Py.str c) ∧
    sized_options fileSize !! "spark.executor.memory" = Some (Py.str c +:+ "g") ∧
    sized_options fileSize !! "spark.cores.max" = Some (Py.str mx) ∧
    (c = 2 ∨ c = 4) ∧ Z.Even mx ∧ c ≤ mx ≤ 32.
Proof.
  intros Hb. unfold sized_options.
  pose proof (configure_spark_cores (bytes_to_gb fileSize)) as Hc.
  pose proof (configure_spark_memory (bytes_to_gb fileSize)) as Hm.
  destruct (configure_spark (bytes_to_gb fileSize)) as [cores mem]. simpl in Hc, Hm.
  rewrite raw_cores_of_bytes in Hc.
  pose proof (raw_cores_nonneg fileSize Hb) as Hraw.
  pose proof (next_even_ge (Z.quot (Py.fl53 fileSize * 2) (2 ^ 30) + 2)) as Hge.
  destruct (next_even_even (Z.quot (Py.fl53 fileSize * 2) (2 ^ 30) + 2)) as [k Hk].
  rewrite <- Hc in Hge, Hk.
  exists (Z.min cores 4), (Z.min cores 32).
  rewrite session_options_executor_cores, session_options_executor_memory,
    session_options_cores_max.
  split; [done|]. split.
  { rewrite Hm. unfold executor_memory_gb, memory_factor. by rewrite Z.mul_1_r. }
  split; [done|]. split; [lia|]. split; [|lia].
  destruct (Z.le_gt_cases cores 32).
  - exists k. lia.
  - exists 16. lia.
Qed.

Lemma session_options_bounds_witness :
  0 ≤ 19620286586 ∧
  ∃ c mx,
    sized_options 19620286586 !! "spark.executor.cores" = Some (Py.str c) ∧
    sized_options 19620286586 !! "spark.executor.memory" = Some (Py.str c +:+ "g") ∧
    sized_options 19620286586 !! "spark.cores.max" = Some (Py.str mx) ∧
    (c = 2 ∨ c = 4) ∧ Z.Even mx ∧ c ≤ mx ≤ 32.
Proof. split; [lia | apply (session_options_bounds 19620286586); lia]. Defined.

(** X3: the two unit conversions agree wherever [bytes_to_mb] returns.
    [bytes_to_mb] raises [OverflowError] exactly from a magnitude of
    [2^1044 - 2^990] bytes on and [bytes_to_gb] only from
    [2^1054 - 2^1000] on, so [bytes_to_gb] returns wherever [bytes_to_mb]
    does; there the size in MB is 1024 times the size in GB; and below
    [2^53] bytes both return and are exact. *)
Theorem bytes_to_mb_gb (size_bytes : Z) :
  (bytes_to_mb_raises size_bytes = true ↔ 2 ^ 1044 - 2 ^ 990 ≤ Z.abs size_bytes) ∧
  (bytes_to_gb_raises size_bytes = true ↔ 2 ^ 1054 - 2 ^ 1000 ≤ Z.abs size_bytes) ∧
  (bytes_to_mb_raises size_bytes = false →
   bytes_to_gb_raises size_bytes = false ∧
   (bytes_to_mb size_bytes == inject_Z 1024 * bytes_to_gb size_bytes)%Q) ∧
  (Z.abs size_bytes < 2 ^ 53 →
   bytes_to_mb_raises size_bytes = false ∧ bytes_to_gb_raises size_bytes = false ∧
   bytes_to_mb size_bytes = Qmake size_bytes (2 ^ 20) ∧
   bytes_to_gb size_bytes = Qmake size_bytes (2 ^ 30)).
Proof.
  pose proof (bytes_to_mb_raises_iff size_bytes) as Hmb.
  pose proof (bytes_to_gb_raises_iff size_bytes) as Hgb.
  split; [exact Hmb|]. split; [exact Hgb|].
  assert (H1 : 2 ^ 1044 - 2 ^ 990 < 2 ^ 1054 - 2 ^ 1000) by (vm_compute; reflexivity).
  assert (H2 : 2 ^ 53 < 2 ^ 1044 - 2 ^ 990) by (vm_compute; reflexivity).
  revert Hmb Hgb H1 H2.
  generalize (2 ^ 1044 - 2 ^ 990) (2 ^ 1054 - 2 ^ 1000). intros T T' Hmb Hgb H1 H2.
  assert (Hsmall : Z.abs size_bytes < T →
            bytes_to_mb_raises size_bytes = false ∧ bytes_to_gb_raises size_bytes = false).
  { intros Hb.
    destruct (bytes_to_mb_raises size_bytes); [apply proj1 in Hmb; lia|].
    destruct (bytes_to_gb_raises size_bytes); [apply proj1 in Hgb; lia|]. done. }
  split.
  - intros Hret. split.
    + apply Hsmall. destruct (Z.lt_ge_cases (Z.abs size_bytes) T) as [|Hge]; [done|].
      apply Hmb in Hge. congruence.
    + unfold bytes_to_mb, bytes_to_gb, Py.truediv_pow2, Qeq. simpl. lia.
  - intros Hb. destruct Hsmall as [-> ->]; [lia|].
    split; [done|]. split; [done|].
    unfold bytes_to_mb, bytes_to_gb, Py.truediv_pow2.
    by rewrite fl53_exact.
Qed.

Lemma bytes_to_mb_gb_witness :
  (bytes_to_mb_raises 392090624 = false ∧ Z.abs 392090624 < 2 ^ 53) ∧
  (bytes_to_gb_raises 392090624 = false ∧
   (bytes_to_mb 392090624 == inject_Z 1024 * bytes_to_gb 392090624)%Q) ∧
  (bytes_to_mb_raises 392090624 = false ∧ bytes_to_gb_raises 392090624 = false ∧
   bytes_to_mb 392090624 = Qmake 392090624 (2 ^ 20) ∧
   bytes_to_gb 392090624 = Qmake 392090624 (2 ^ 30)).
Proof.
  assert (H1 : bytes_to_mb_raises 392090624 = false) by (vm_compute; reflexivity).
  assert (H2 : Z.abs 392090624 < 2 ^ 53) by (vm_compute; reflexivity).
  split; [by split|].
  destruct (bytes_to_mb_gb 392090624) as (_ & _ & Hret & Hexact).
  split; [exact (Hret H1) | exact (Hexact H2)].
Defined.
End SizingFurther.

(** ** The label filter: which subreddits are kept *)

Lemma groupBy_count_elem df k n :
  (k, n) ∈ groupBy_count df ↔
  k ∈ subreddit <$> df ∧ n = length (filter (λ r, subreddit r = k) df).
Proof.
  unfold groupBy_count. rewrite list_elem_of_fmap. split.
  - intros (k' & [= -> ->] & Hk). split; [by apply elem_of_remove_dups|done].
  - intros [Hk ->]. exists k. split; [done|]. by apply elem_of_remove_dups.
Qed.

Section FilterFurther.
Variable orderBy_count_desc : list (option string * nat) → list (option string * nat).

(** X4: the rows kept are whole subreddits, in the order of the input:
    the result is a sublist of the input, and a subreddit with a row in
    the result has all its complete rows there. *)
Theorem filter_data_whole_subreddits (df : DataFrame) :
  let df_filtered := filter (λ r, all_not_null r = true) df in
  let out := filter_data orderBy_count_desc df in
  out `sublist_of` df ∧
  ∀ r, r ∈ out →
    filter (λ r', subreddit r' = subreddit r) out
    = filter (λ r', subreddit r' = subreddit r) df_filtered.
Proof.
  intros f out. subst out. unfold filter_data. fold f.
  set (top := (take 25 (orderBy_count_desc (groupBy_count f))).*1).
  split.
  - transitivity f; apply sublist_filter.
  - intros r [Hin _]%list_elem_of_filter.
    apply isin_spec in Hin as (c & Hc & Htop).
    rewrite (list_filter_filter (λ r', subreddit r' = subreddit r)
               (λ r0, isin top r0 = true) f).
    apply list_filter_iff. intros r'. split; [tauto|].
    intros Hr'. split; [done|]. apply isin_spec. exists c. split; [congruence|done].
Qed.

Hypothesis orderBy_permutes : ∀ l, orderBy_count_desc l ≡ₚ l.

Lemma filter_data_not_null df r :
  r ∈ filter_data orderBy_count_desc df → all_not_null r = true.
Proof. by intros [_ [? _]%list_elem_of_filter]%list_elem_of_filter. Qed.

Lemma filter_data_few_subreddits df :
  length (remove_dups (subreddit <$> filter_data orderBy_count_desc df)) ≤ 25.
Proof.
  unfold filter_data.
  set (f := filter (λ r, all_not_null r = true) df).
  set (top := (take 25 (orderBy_count_desc (groupBy_count f))).*1).
  transitivity (length top).
  - apply submseteq_length, NoDup_submseteq; [apply NoDup_remove_dups|].
    intros k (r & -> & [Hin _]%list_elem_of_filter)%elem_of_remove_dups%list_elem_of_fmap.
    by apply isin_spec in Hin as (c & -> & Hc).
  - subst top. rewrite length_fmap, length_take. lia.
Qed.

Lemma filter_data_keeps_few df :
  length (remove_dups (subreddit <$> filter (λ r, all_not_null r = true) df)) ≤ 25 →
  filter_data orderBy_count_desc df = filter (λ r, all_not_null r = true) df.
Proof.
  intros Hfew. unfold filter_data.
  set (f := filter (λ r, all_not_null r = true) df) in *.
  apply filter_all, Forall_forall. intros r Hr.
  assert (Hkey : subreddit r ∈ (take 25 (orderBy_count_desc (groupBy_count f))).*1).
  { rewrite take_ge.
    - rewrite (orderBy_permutes _), groupBy_count_keys.
      apply elem_of_remove_dups, list_elem_of_fmap_2, Hr.
    - rewrite (Permutation_length (orderBy_permutes _)).
      by rewrite <- (length_fmap fst), groupBy_count_keys. }
  apply list_elem_of_filter in Hr as [[[c Hc] _]%all_not_null_spec _].
  apply isin_spec. exists c. by rewrite <- Hc.
Qed.

(** X5: filtering twice is filtering once. *)
Theorem filter_data_idempotent (df : DataFrame) :
  filter_data orderBy_count_desc (filter_data orderBy_count_desc df)
  = filter_data orderBy_count_desc df.
Proof.
  set (out := filter_data orderBy_count_desc df).
  assert (Hnn : filter (λ r, all_not_null r = true) out = out).
  { apply filter_all, Forall_forall. intros r Hr. by eapply filter_data_not_null. }
  transitivity (filter (λ r, all_not_null r = true) out); [|exact Hnn].
  apply filter_data_keeps_few. unfold DataFrame in *. rewrite Hnn.
  apply filter_data_few_subreddits.
Qed.

Hypothesis orderBy_sorted : ∀ l, Sorted count_desc (orderBy_count_desc l).

(** X6: the subreddits kept are the most frequent ones: a complete row
    that is dropped belongs to a subreddit with no more complete rows than
    the subreddit of any row that is kept. *)
Theorem filter_data_keeps_most_frequent (df : DataFrame) (r_kept r_dropped : Row) :
  let df_filtered := filter (λ r, all_not_null r = true) df in
  let out := filter_data orderBy_count_desc df in
  r_kept ∈ out → r_dropped ∈ df_filtered → r_dropped ∉ out →
  length (filter (λ r, subreddit r = subreddit r_dropped) df_filtered)
  ≤ length (filter (λ r, subreddit r = subreddit r_kept) df_filtered).
Proof.
  intros f out Hkept Hdf Hdropped. subst out. unfold filter_data in *. fold f in Hkept, Hdropped.
  set (counts := orderBy_count_desc (groupBy_count f)) in *.
  assert (Hsorted : StronglySorted count_desc (take 25 counts ++ drop 25 counts)).
  { rewrite take_drop. apply Sorted_StronglySorted; [apply _|]. apply orderBy_sorted. }
  assert (Hmem : ∀ k n, (k, n) ∈ counts ↔
            k ∈ subreddit <$> f ∧ n = length (filter (λ r, subreddit r = k) f)).
  { intros k n. subst counts. rewrite (orderBy_permutes _). apply groupBy_count_elem. }
  apply list_elem_of_filter in Hkept as [Hin _].
  apply isin_spec in Hin as (c & Hc & Htop).
  apply list_elem_of_fmap in Htop as ([k n] & Hk & Hpair). simpl in Hk. subst k.
  assert (Hn : n = length (filter (λ r, subreddit r = Some c) f)).
  { apply (Hmem (Some c) n). rewrite <- (take_drop 25 counts). apply elem_of_app. by left. }
  set (m := length (filter (λ r, subreddit r = subreddit r_dropped) f)).
  assert (Hd : (subreddit r_dropped, m) ∈ counts).
  { apply Hmem. split; [by apply list_elem_of_fmap_2|done]. }
  rewrite <- (take_drop 25 counts) in Hd. apply elem_of_app in Hd as [Hd|Hd].
  - destruct Hdropped. apply list_elem_of_filter. split; [|done].
    apply list_elem_of_filter in Hdf as [[[d Hsome] _]%all_not_null_spec _].
    apply isin_spec. exists d. split; [done|]. rewrite <- Hsome.
    by apply (list_elem_of_fmap_2 fst) in Hd.
  - pose proof (StronglySorted_app_1_elem_of _ _ _ _ _ Hsorted Hpair Hd) as Hle.
    unfold count_desc in Hle. simpl in Hle. rewrite Hc, <- Hn. exact Hle.
Qed.
End FilterFurther.

Lemma filter_data_idempotent_witness :
  (∀ l, sort_count_desc l ≡ₚ l) ∧
  filter_data sort_count_desc (filter_data sort_count_desc thirty_subreddits)
  = filter_data sort_count_desc thirty_subreddits.
Proof.
  split; [intros l; apply merge_sort_Permutation|].
  apply (filter_data_idempotent sort_count_desc).
  intros l; apply merge_sort_Permutation.
Defined.

Lemma filter_data_keeps_most_frequent_witness :
  let kept := mkRow (Some "r/29") (Some "tl;dr") (Some "text") in
  let dropped := mkRow (Some "r/0") (Some "tl;dr") (Some "text") in
  let df_filtered := filter (λ r, all_not_null r = true) thirty_subreddits in
  let out := filter_data sort_count_desc thirty_subreddits in
  (∀ l, sort_count_desc l ≡ₚ l) ∧
  (∀ l, Sorted count_desc (sort_count_desc l)) ∧
  kept ∈ out ∧ dropped ∈ df_filtered ∧ (dropped ∉ out) ∧
  length (filter (λ r, subreddit r = subreddit dropped) df_filtered)
  ≤ length (filter (λ r, subreddit r = subreddit kept) df_filtered).
Proof.
  intros kept dropped df_filtered out.
  pose proof (merge_sort_Permutation count_desc) as Hperm.
  pose proof (Sorted_merge_sort count_desc) as Hsorted.
  assert (Hkept : kept ∈ out).
  { apply (bool_decide_unpack _). vm_compute. exact I. }
  assert (Hdf : dropped ∈ df_filtered).
  { apply (bool_decide_unpack _). vm_compute. exact I. }
  assert (Hdropped : dropped ∉ out).
  { apply (bool_decide_unpack _). vm_compute. exact I. }
  repeat (split; [assumption|]).
  exact (filter_data_keeps_most_frequent sort_count_desc Hperm Hsorted thirty_subreddits
           kept dropped Hkept Hdf Hdropped).
Defined.

(** ** The seeded split: a partition *)





Section SplitFurther.
Context {E : Engine}.




End SplitFurther.




(** ** Building the sessions of a repetition *)

Section BuildFurther.
Context {E : Engine}.
Implicit Types w : World E.
Local Arguments session_options : simpl never.

(** What [build_spark_session] does from a world with no live session. *)
Lemma build_spark_session_clean hp fp w :
  live w = [] →
  wp (build_spark_session hp fp)
     (λ r w',
        r.1.2 = r.1.1 ∧ r.1.1 = mkSession (S (created w)) (sized_options r.2) ∧
        live w' = [r.1.1] ∧ created w' = S (S (created w)) ∧
        history w' = history w ++ [[created w]; []; [S (created w)]] ∧
        stdout w' = stdout w ∧
        ∃ es es', hdfs_getLen E hp fp es = (Ok r.2, es'))
     (λ e w',
        stdout w' = stdout w ∧
        ((live w' = [] ∧ created w' ≤ S (created w)) ∨
         (live w' = [mkSession (created w)
                       {[ "spark.app.name" := "Project Group 32 HDFSFileSize" ]}] ∧
          created w' = S (created w) ∧
          ∃ es es', hdfs_getLen E hp fp es = (Raise e, es'))))
     w.
Proof.
  intros Hl. unfold build_spark_session.
  apply wp_bind, wp_getOrCreate.
  - intros s rest Hs. congruence.
  - intros es _ _. cbv beta.
    apply wp_bind, wp_engine_call.
    + intros fileSize es1 Hlen. cbv beta.
      apply wp_bind, wp_stop; simpl.
      * intros _. rewrite filter_cons, decide_False by (intros H; by apply H). simpl.
        apply wp_bind, wp_getOrCreate; simpl.
        -- intros s rest [=].
        -- intros es2 _ _. apply wp_ret. simpl. rewrite <- !app_assoc.
           repeat split; try reflexivity. by exists es, es1.
        -- intros e es2 _ _. split; [done|]. left. split; [done|lia].
      * intros H. destruct H. by apply list_elem_of_singleton.
    + intros e es1 Hlen. simpl. split; [done|]. right. split; [done|]. split; [done|].
      by exists es, es1.
  - intros e es _ _. simpl. split; [done|]. left. split; [done|lia].
Qed.

(** What it does when a session is live, left by a repetition that
    failed: the probe uses that session and stops it. *)
Lemma build_spark_session_reuse hp fp w s0 :
  live w = [s0] →
  wp (build_spark_session hp fp)
     (λ r w',
        r.1.2 = r.1.1 ∧ r.1.1 = mkSession (created w) (sized_options r.2) ∧
        live w' = [r.1.1] ∧ created w' = S (created w) ∧
        history w' = history w ++ [[]; [created w]] ∧
        ∃ es es', hdfs_getLen E hp fp es = (Ok r.2, es'))
     (λ e w', (live w' = [] ∧ created w' = created w) ∨
              (live w' = [s0] ∧ created w' = created w ∧
               ∃ es es', hdfs_getLen E hp fp es = (Raise e, es')))
     w.
Proof.
  intros Hl. unfold build_spark_session.
  apply wp_bind, wp_getOrCreate.
  - intros s rest Hs. rewrite Hl in Hs. injection Hs as <- <-. cbv beta.
    apply wp_bind, wp_engine_call.
    + intros fileSize es1 Hlen. cbv beta.
      apply wp_bind, wp_stop; simpl; rewrite Hl.
      * intros _. rewrite filter_cons, decide_False by (intros H; by apply H). simpl.
        apply wp_bind, wp_getOrCreate; simpl.
        -- intros s rest [=].
        -- intros es2 _ _. apply wp_ret. simpl. rewrite <- !app_assoc.
           repeat split; try reflexivity. by exists (eng w), es1.
        -- intros e es2 _ _. by left.
      * intros H. destruct H. by apply list_elem_of_singleton.
    + intros e es1 Hlen. simpl. right. split; [done|]. split; [done|].
      by exists (eng w), es1.
  - intros es Hnil. congruence.
  - intros e es Hnil. congruence.
Qed.

(** The session returned, in both cases. *)
Lemma build_spark_session_result hp fp w :
  calm w →
  wp (build_spark_session hp fp)
     (λ r w',
        r.1.2 = r.1.1 ∧ options r.1.1 = sized_options r.2 ∧ live w' = [r.1.1] ∧
        created w ≤ sid r.1.1 < created w' ∧
        ∃ es es', hdfs_getLen E hp fp es = (Ok r.2, es'))
     (λ _ _, True) w.
Proof.
  intros Hw. destruct (calm_live_cases w Hw) as [Hl|[s0 Hl]].
  - eapply wp_mono; [by apply build_spark_session_clean| |done].
    intros [[s c] size] w' (H1 & H2 & H3 & H4 & _ & _ & H5). simpl in *. subst c s.
    simpl. repeat split; try done; lia.
  - eapply wp_mono; [by apply build_spark_session_reuse| |done].
    intros [[s c] size] w' (H1 & H2 & H3 & H4 & _ & H5). simpl in *. subst c s.
    simpl. repeat split; try done; lia.
Qed.

(** X10: whatever session an earlier failure left live, the session
    [build_spark_session] returns is a new one, the only one live, built
    with the options sized for the file length the probe has just read;
    the context it returns is that session's. *)
Theorem build_spark_session_sized hp fp w spark_session spark_context fileSize w' :
  calm w →
  build_spark_session hp fp w = (Ok (spark_session, spark_context, fileSize), w') →
  spark_context = spark_session ∧
  options spark_session = sized_options fileSize ∧
  live w' = [spark_session] ∧
  created w ≤ sid spark_session < created w' ∧
  ∃ es es', hdfs_getLen E hp fp es = (Ok fileSize, es').
Proof.
  intros Hw Hrun.
  pose proof (build_spark_session_result hp fp w Hw) as H. unfold wp in H.
  rewrite Hrun in H. exact H.
Qed.

(** X11: when [build_spark_session] fails from a world with no live
    session, no sized session exists afterwards; a session is left live
    exactly when it is the probe of the file size that failed, and it is
    the session of the probe ([spark.stop()] is never reached). *)
Theorem build_spark_session_failure hp fp w e w' :
  live w = [] →
  build_spark_session hp fp w = (Raise e, w') →
  (live w' = [] ∨
   (live w' = [mkSession (created w)
                 {[ "spark.app.name" := "Project Group 32 HDFSFileSize" ]}] ∧
    ∃ es es', hdfs_getLen E hp fp es = (Raise e, es'))) ∧
  ∀ s, s ∈ live w' → options s !! "spark.executor.cores" = None.
Proof.
  intros Hl Hrun.
  pose proof (build_spark_session_clean hp fp w Hl) as H. unfold wp in H.
  rewrite Hrun in H. destruct H as (_ & [[Hnil _]|(Hlive & _ & Hlen)]).
  - split; [by left|]. rewrite Hnil. by intros s ?%elem_of_nil.
  - split; [by right|]. rewrite Hlive. by intros s ->%list_elem_of_singleton.
Qed.
End BuildFurther.

Lemma build_spark_session_sized_witness :
  let w := (iteration hdfs_path "/data/reddit/reddit_50k.json" (Some schema_v1) 0
              (init_locals 5) (Scripted.start (Some 0))).2 in
  let fp := "/data/reddit/reddit_100k.json" in
  (calm w ∧ sid <$> live w = [1]) ∧
  ∃ spark_session spark_context fileSize w',
    build_spark_session hdfs_path fp w = (Ok (spark_session, spark_context, fileSize), w') ∧
    spark_context = spark_session ∧ options spark_session = sized_options fileSize ∧
    live w' = [spark_session] ∧ created w ≤ sid spark_session < created w' ∧
    ∃ es es', hdfs_getLen (Scripted.engine (Some 0)) hdfs_path fp es = (Ok fileSize, es').
Proof.
  intros w fp.
  assert (Hw : calm w) by (split; [vm_compute; lia | vm_compute; repeat constructor]).
  split; [split; [exact Hw | vm_compute; reflexivity]|].
  destruct (build_spark_session hdfs_path fp w) as [[[[s c] size]|e] w'] eqn:Hrun.
  - exists s, c, size, w'. split; [reflexivity|].
    exact (build_spark_session_sized hdfs_path fp w s c size w' Hw Hrun).
  - vm_compute in Hrun. discriminate Hrun.
Defined.

Lemma build_spark_session_failure_witness :
  let w := Scripted.start None in
  let fp := "/data/reddit/reddit_1k.json" in
  live w = [] ∧
  ∃ e w',
    build_spark_session hdfs_path fp w = (Raise e, w') ∧
    (live w' = [] ∨
     (live w' = [mkSession (created w)
                   {[ "spark.app.name" := "Project Group 32 HDFSFileSize" ]}] ∧
      ∃ es es', hdfs_getLen (Scripted.engine None) hdfs_path fp es = (Raise e, es'))) ∧
    ∀ s, s ∈ live w' → options s !! "spark.executor.cores" = None.
Proof.
  intros w fp. split; [reflexivity|].
  destruct (build_spark_session hdfs_path fp w) as [[r|e] w'] eqn:Hrun.
  - vm_compute in Hrun. discriminate Hrun.
  - exists e, w'. split; [reflexivity|].
    exact (build_spark_session_failure hdfs_path fp w e w' eq_refl Hrun).
Defined.

(** ** What a row reports *)

Lemma wp_conj {E : Engine} {A} (m : M E A) Q1 Q2 R1 R2 (w : World E) :
  wp m Q1 R1 w → wp m Q2 R2 w →
  wp m (λ a w', Q1 a w' ∧ Q2 a w') (λ e w', R1 e w' ∧ R2 e w') w.
Proof. unfold wp. by destruct (m w) as [[a|e] w']. Qed.

(** A loop keeps an invariant of the locals and the world that every pass
    that returns keeps. *)
Lemma wp_for_each_locals {E : Engine} {A S} (I : S → World E → Prop)
    (body : A → S → M E S) (l : list A) s (w : World E) :
  (∀ x s w, x ∈ l → I s w → wp (body x s) I (λ _ _, True) w) →
  I s w → wp (for_each l body s) I (λ _ _, True) w.
Proof.
  revert s w. induction l as [|x l IH]; intros s w Hbody Hw; simpl.
  - done.
  - apply wp_bind. eapply wp_mono; [apply Hbody; [left|done]| |done].
    intros s' w' Hw'. apply IH; [|done].
    intros y s1 w1 Hy. apply Hbody. by right.
Qed.

Section RowFurther.
Context {E : Engine}.
Implicit Types w : World E.

(** What every repetition that returns has measured holds of all the
    measurements of a run. *)
Lemma run_metrics_Forall (P : RunMetrics → Prop) (I : World E → Prop) hp fp schema n k :
  (∀ i st w, I w →
     wp (iteration hp fp schema i st)
        (λ st' w', I w' ∧ ∃ m b, st' = set_bound b (store i m st) ∧ P m)
        (λ _ _, True) w) →
  ∀ ms st w, length ms + k ≤ n → holds n ms st → I w →
  Forall P (run_metrics hp fp schema (length ms) k st w).
Proof.
  intros Hpass. induction k as [|k IH]; intros ms st w Hle Hholds Hw; simpl; [done|].
  specialize (Hpass (length ms) st w Hw). unfold wp in Hpass.
  destruct (iteration hp fp schema (length ms) st w) as [[st'|e] w']; [|done].
  destruct Hpass as (Hw' & m & b & -> & Hm).
  destruct (holds_store n ms m b st ltac:(lia) Hholds) as [Hh Hrec].
  rewrite Hrec. constructor; [done|].
  specialize (IH (ms ++ [m]) (set_bound b (store (length ms) m st)) w').
  rewrite length_app in IH; simpl in IH.
  replace (length ms + 1) with (S (length ms)) in IH by lia.
  apply IH; [lia|done|done].
Qed.

(** A pass binds the length the probe read and the options sized for it. *)
Lemma iteration_sized_bound hp fp schema i st w :
  calm w →
  wp (iteration hp fp schema i st)
     (λ st' w', ∃ b, bound st' = Some b ∧ sized_bound E hp fp b)
     (λ _ _, True) w.
Proof.
  intros Hw. unfold iteration.
  apply wp_neutral_bind; [apply neutral_print| |done].
  intros _ w1 Hl1 Hh1. assert (Hc1 : calm w1) by by eapply calm_frame.
  apply wp_bind, wp_engine_read. cbv beta.
  apply wp_bind.
  eapply wp_mono; [by apply build_spark_session_result| |done].
  intros [[spark_session spark_context] fileSize] w3 (Hctx & Hopts & _ & _ & Hlen).
  simpl in Hctx, Hopts, Hlen. subst spark_context.
  do 8 (apply wp_bind_any; intros ? ?;
        try match goal with |- wp (let '(_, _) := ?x in _) _ _ _ => destruct x end).
  apply wp_bind, wp_conf_get; [|done]. intros executor_cores Hc.
  apply wp_bind, wp_conf_get; [|done]. intros executor_memory Hm.
  apply wp_bind, wp_conf_get; [|done]. intros max_cores Hx.
  do 2 (apply wp_bind_any; intros ? ?). apply wp_ret.
  eexists. split; [reflexivity|]. unfold sized_bound; simpl.
  rewrite <- Hopts. done.
Qed.

Lemma evaluate_performance_sized hp fp schema n w :
  calm w →
  wp (evaluate_performance hp fp schema n)
     (λ res _, ∃ fileSize,
        perf_size_gb res = bytes_to_gb fileSize ∧
        sized_bound E hp fp
          (fileSize, perf_executor_cores res, perf_executor_memory res,
           perf_max_cores res))
     (λ _ _, True) w.
Proof.
  intros Hw. unfold evaluate_performance. apply wp_bind.
  eapply wp_mono;
    [apply (wp_for_each_locals
              (λ st w, calm w ∧ ∀ b, bound st = Some b → sized_bound E hp fp b))
    | | done].
  - intros i st w1 _ [Hc1 _].
    eapply wp_mono;
      [apply wp_conj; [by apply iteration_sessions|by apply iteration_sized_bound]
      | | done].
    intros st' w' [[Hc' _] (b & Hb & Hs)]. split; [done|].
    intros b' Hb'. congruence.
  - split; [done|]. by intros b.
  - intros st w1 [_ Hb]. simpl.
    destruct (bound st) as [[[[fileSize executor_cores] executor_memory] max_cores]|];
      [|done].
    apply wp_ret. exists fileSize. split; [done|]. by apply Hb.
Qed.

(** X12: every row of the benchmark stands for one of the files (its name
    less the extension), and its four sizing columns belong together: the
    size is the size in GB of a length the probe read for that file, and the
    executor cores, executor memory and maximum of cores are the options
    [configure_spark] sized for that very length, read back from the
    session. *)
Theorem benchmark_rows_sized n files w rows w' :
  calm w →
  benchmark_loop n files [] w = (Ok rows, w') →
  Forall (row_sized E files) rows.
Proof.
  intros Hw Hrun.
  pose proof (wp_for_each_locals
                (λ rows w, calm w ∧ Forall (row_sized E files) rows)
                (benchmark_file n) files [] w) as H.
  unfold benchmark_loop in Hrun. unfold wp at 2 in H. rewrite Hrun in H.
  simpl in H. apply H; [clear H|by split].
  intros file results w1 Hfile [Hc1 Hrows].
  eapply wp_mono;
    [eapply wp_conj with (R2 := λ _ _, True); [by apply benchmark_file_calm|]
    | intros a w2 [Hc2 Ha]; split;
       [exact Hc2|exact Ha] | done].
  unfold benchmark_file. apply wp_try_except, wp_bind.
  eapply wp_mono; [by apply evaluate_performance_sized| |].
  - intros res w2 (fileSize & Hsize & Hb). apply wp_ret.
    apply Forall_app. split; [done|]. constructor; [|done].
    by exists file, fileSize.
  - intros e w2 _. simpl. repeat wp_step. done.
Qed.
End RowFurther.

Lemma benchmark_rows_sized_witness :
  let w := Scripted.start (Some 1) in
  let files := ["reddit_50k.json"; "reddit_500k.json"] in
  calm w ∧
  ∃ rows w', benchmark_loop 2 files [] w = (Ok rows, w') ∧ length rows = 1 ∧
             Forall (row_sized (Scripted.engine (Some 1)) files) rows.
Proof.
  intros w files.
  assert (Hw : calm w) by (split; simpl; [lia | constructor]).
  split; [exact Hw|].
  destruct (benchmark_loop 2 files [] w) as [[rows|e] w'] eqn:Hrun.
  - exists rows, w'. split; [reflexivity|]. split.
    + vm_compute in Hrun. injection Hrun as <- _. reflexivity.
    + exact (benchmark_rows_sized 2 files w rows w' Hw Hrun).
  - vm_compute in Hrun. discriminate Hrun.
Defined.

(** ** The averaged timings and accuracy *)

Section ClockFurther.
Context {E : Engine}.
Implicit Types w : World E.
Local Open Scope Q_scope.

Lemma advances_ret {A} (a : A) : advances (E := E) (ret a).
Proof. intros w. apply Qle_refl. Qed.

Lemma advances_engine_read {A} (f : ES E → A) : advances (E := E) (engine_read f).
Proof. intros w. apply Qle_refl. Qed.

Lemma advances_engine_call {A} (op : ES E → Outcome A * ES E) :
  (∀ es, time_time E es <= time_time E (op es).2) → advances (E := E) (engine_call op).
Proof.
  intros Hop w. unfold engine_call. specialize (Hop (eng w)).
  by destruct (op (eng w)) as [r es].
Qed.

Lemma advances_bind {A B} (m : M E A) (k : A → M E B) :
  advances m → (∀ a, advances (E := E) (k a)) → advances (E := E) (bind m k).
Proof.
  intros Hm Hk w. unfold bind. specialize (Hm w).
  destruct (m w) as [[a|e] w1]; [|done].
  eapply Qle_trans; [exact Hm|apply Hk].
Qed.

Lemma advances_getOrCreate opts : steady_clock E → advances (E := E) (getOrCreate opts).
Proof.
  intros (_ & Hstart & _) w. unfold getOrCreate.
  destruct (live w) as [|s rest]; [|apply Qle_refl].
  specialize (Hstart opts (eng w)).
  by destruct (context_start E opts (eng w)) as [[[]|e] es].
Qed.

Lemma advances_stop s : steady_clock E → advances (E := E) (stop s).
Proof.
  intros (_ & _ & Hstop & _) w. unfold stop.
  case_bool_decide; [apply Hstop|apply Qle_refl].
Qed.

Lemma advances_conf_get s key : advances (E := E) (conf_get s key).
Proof. intros w. unfold conf_get. destruct (options s !! key); apply Qle_refl. Qed.

Lemma advances_build_spark_session hp fp :
  steady_clock E → advances (E := E) (build_spark_session hp fp).
Proof.
  intros Hclock. unfold build_spark_session.
  apply advances_bind; [by apply advances_getOrCreate|]. intros spark.
  apply advances_bind; [apply advances_engine_call, Hclock|]. intros fileSize.
  apply advances_bind; [by apply advances_stop|]. intros _.
  destruct (configure_spark (bytes_to_gb fileSize)) as [executor_cores executor_memory].
  apply advances_bind; [by apply advances_getOrCreate|]. intros spark_session.
  apply advances_ret.
Qed.

Lemma advances_load_data s hp fp schema :
  steady_clock E → advances (E := E) (load_data s hp fp schema).
Proof. intros Hclock. apply advances_engine_call, Hclock. Qed.

Lemma advances_filter_data df : steady_clock E → advances (E := E) (filter_data_on_engine df).
Proof.
  intros Hclock. unfold filter_data_on_engine.
  apply advances_bind; [apply advances_engine_call, Hclock|]. intros _.
  apply advances_bind; [apply advances_engine_read|]. intros order.
  apply advances_ret.
Qed.

(** Splitting with a seed does not touch the world. *)
Lemma split_data_world df seed test_fraction w :
  (split_data df seed test_fraction w).2 = w.
Proof.
  unfold split_data, randomSplit, bind, ret, raise.
  destruct (negb _); [done|]. destruct (Qle_bool _ _); [done|].
  destruct (split_cells _ _ _) as [|a [|b [|c l]]]; done.
Qed.

Lemma advances_split_data df seed test_fraction :
  advances (E := E) (split_data df seed test_fraction).
Proof. intros w. rewrite split_data_world. apply Qle_refl. Qed.

Lemma advances_random_forest train pipe :
  steady_clock E → advances (E := E) (random_forest train pipe).
Proof. intros Hclock. apply advances_engine_call, Hclock. Qed.

Lemma advances_model_eval model test :
  steady_clock E → advances (E := E) (model_eval model test).
Proof. intros Hclock. apply advances_engine_call, Hclock. Qed.

Lemma wp_advances_bind {A B} (m : M E A) (k : A → M E B) Qok w :
  advances m →
  (∀ a w', time_time E (eng w) <= time_time E (eng w') → wp (k a) Qok (λ _ _, True) w') →
  wp (bind m k) Qok (λ _ _, True) w.
Proof.
  intros Hm Hk. apply wp_bind. unfold wp at 1. specialize (Hm w).
  destruct (m w) as [[a|e] w']; [by apply Hk|done].
Qed.

(** Under a steady clock the durations a pass measures are sound. *)
Lemma iteration_durations hp fp schema i st w :
  steady_clock E →
  wp (iteration hp fp schema i st)
     (λ st' _, True ∧ ∃ m b, st' = set_bound b (store i m st) ∧ sound_durations m)
     (λ _ _, True) w.
Proof.
  intros Hclock. unfold iteration.
  apply wp_bind, wp_print. apply wp_bind, wp_engine_read. cbv beta.
  apply wp_advances_bind; [by apply advances_build_spark_session|].
  intros [[spark_session spark_context] fileSize] w3 H3.
  apply wp_advances_bind; [by apply advances_load_data|]. intros df w4 H4.
  apply wp_advances_bind; [by apply advances_filter_data|]. intros df' w5 H5.
  apply wp_advances_bind; [by apply advances_split_data|].
  intros [train_data test_data] w6 H6.
  apply wp_bind, wp_engine_read. cbv beta.
  apply wp_advances_bind; [by apply advances_random_forest|]. intros model w7 H7.
  apply wp_bind, wp_engine_read. cbv beta.
  apply wp_advances_bind; [by apply advances_model_eval|]. intros acc w8 H8.
  apply wp_bind, wp_engine_read. cbv beta.
  apply wp_advances_bind; [by apply advances_conf_get|]. intros executor_cores w9 H9.
  apply wp_advances_bind; [by apply advances_conf_get|]. intros executor_memory w10 H10.
  apply wp_advances_bind; [by apply advances_conf_get|]. intros max_cores w11 H11.
  apply wp_advances_bind; [by apply advances_stop|]. intros _ w12 H12.
  apply wp_bind, wp_engine_read. cbv beta. apply wp_ret.
  split; [done|].
  exists (mkRunMetrics (time_time E (eng w6) - time_time E (eng w))
                       (time_time E (eng w7) - time_time E (eng w6))
                       (time_time E (eng w8) - time_time E (eng w7))
                       (time_time E (eng w12) - time_time E (eng w)) acc),
         (fileSize, executor_cores, executor_memory, max_cores).
  split; [reflexivity|].
  unfold sound_durations; cbn [load_time train_time eval_time total_time eng] in *.
  repeat split; lra.
Qed.

Lemma sum_nonneg (l : list Q) : Forall (λ x, 0 <= x) l → 0 <= sum l.
Proof. induction 1; [done|]. unfold sum in *. cbn [foldr]. lra. Qed.

Lemma mean_nonneg (l : list Q) : Forall (λ x, 0 <= x) l → 0 <= mean l.
Proof.
  intros Hl. unfold mean, Qdiv. apply Qmult_le_0_compat; [by apply sum_nonneg|].
  apply Qinv_le_0_compat. change 0 with (inject_Z 0). rewrite <- Zle_Qle. lia.
Qed.

Lemma sum_le (f g : RunMetrics → Q) (ms : list RunMetrics) :
  Forall (λ m, f m <= g m) ms → sum (f <$> ms) <= sum (g <$> ms).
Proof.
  induction 1 as [|m ms Hm _ IH]; [done|].
  rewrite !fmap_cons. unfold sum in *. cbn [foldr]. lra.
Qed.

Lemma mean_le (f g : RunMetrics → Q) (ms : list RunMetrics) :
  Forall (λ m, f m <= g m) ms → mean (f <$> ms) <= mean (g <$> ms).
Proof.
  intros Hms. unfold mean. rewrite !length_fmap. unfold Qdiv.
  apply Qmult_le_compat_r; [by apply sum_le|].
  apply Qinv_le_0_compat. change 0 with (inject_Z 0). rewrite <- Zle_Qle. lia.
Qed.

(** X13: with a clock that no call of the engine sets back, the averaged
    timings of a row are sound: the data loading, training and evaluation
    times are not negative, and none of them exceeds the overall execution
    time. *)
Theorem averaged_times_sound hp fp schema n w res w' :
  steady_clock E →
  evaluate_performance hp fp schema n w = (Ok res, w') →
  0 <= perf_data_load_time res <= perf_overall_exec_time res ∧
  0 <= perf_training_time res <= perf_overall_exec_time res ∧
  0 <= perf_evaluation_time res <= perf_overall_exec_time res.
Proof.
  intros Hclock Hrun.
  destruct n as [|n].
  { unfold evaluate_performance, bind in Hrun. simpl in Hrun. discriminate. }
  pose proof (evaluate_performance_spec hp fp schema (S n) w ltac:(lia)) as H.
  unfold wp in H. rewrite Hrun in H. destruct H as (Hlen & H1 & H2 & H3 & H4 & _).
  set (ms := run_metrics hp fp schema 0 (S n) (init_locals (S n)) w) in *.
  assert (Hms : Forall sound_durations ms).
  { apply (run_metrics_Forall sound_durations (λ _, True) hp fp schema (S n) (S n)
             (λ i st w0 _, iteration_durations hp fp schema i st w0 Hclock)
             [] (init_locals (S n)) w); [simpl; lia|apply holds_init|done]. }
  rewrite H1, H2, H3, H4.
  repeat split.
  - apply mean_nonneg, Forall_fmap. eapply Forall_impl; [exact Hms|].
    by intros m ([? _] & _).
  - apply mean_le. eapply Forall_impl; [exact Hms|]. by intros m ([_ ?] & _).
  - apply mean_nonneg, Forall_fmap. eapply Forall_impl; [exact Hms|].
    by intros m (_ & [? _] & _).
  - apply mean_le. eapply Forall_impl; [exact Hms|]. by intros m (_ & [_ ?] & _).
  - apply mean_nonneg, Forall_fmap. eapply Forall_impl; [exact Hms|].
    by intros m (_ & _ & [? _]).
  - apply mean_le. eapply Forall_impl; [exact Hms|]. by intros m (_ & _ & [_ ?]).
Qed.
End ClockFurther.

Lemma scripted_steady fit_fails_at : steady_clock (Scripted.engine fit_fails_at).
Proof.
  unfold steady_clock; simpl.
  repeat split; intros; rewrite <- Zle_Qle;
    unfold Scripted.getLen, Scripted.fit, Scripted.tick;
    repeat first [case_bool_decide | case_match]; simpl; lia.
Qed.

Lemma averaged_times_sound_witness :
  let w := Scripted.start None in
  let fp := "/data/reddit/reddit_50k.json" in
  steady_clock (Scripted.engine None) ∧
  ∃ res w',
    evaluate_performance hdfs_path fp (Some schema_v1) 3 w = (Ok res, w') ∧
    (0 <= perf_data_load_time res <= perf_overall_exec_time res ∧
     0 <= perf_training_time res <= perf_overall_exec_time res ∧
     0 <= perf_evaluation_time res <= perf_overall_exec_time res)%Q.
Proof.
  intros w fp. split; [apply scripted_steady|].
  destruct (evaluate_performance hdfs_path fp (Some schema_v1) 3 w) as [[res|e] w'] eqn:Hrun.
  - exists res, w'. split; [reflexivity|].
    exact (averaged_times_sound hdfs_path fp (Some schema_v1) 3 w res w'
             (scripted_steady None) Hrun).
  - vm_compute in Hrun. discriminate Hrun.
Defined.

Section AccuracyFurther.
Context {E : Engine}.
Implicit Types w : World E.
Local Open Scope Q_scope.

(** The accuracy a pass stores is the one the evaluator returned. *)
Lemma iteration_accuracy (P : Q → Prop) hp fp schema i st w :
  (∀ model test es a es', transform_evaluate E model test es = (Ok a, es') → P a) →
  wp (iteration hp fp schema i st)
     (λ st' _, True ∧ ∃ m b, st' = set_bound b (store i m st) ∧ P (accuracy m))
     (λ _ _, True) w.
Proof.
  intros Hrange. unfold iteration.
  do 2 (apply wp_bind_any; intros ? ?).
  apply wp_bind_any; intros [[spark_session spark_context] fileSize] w3.
  do 6 (apply wp_bind_any; intros ? ?;
        try match goal with |- wp (let '(_, _) := ?x in _) _ _ _ => destruct x end).
  apply wp_bind. unfold model_eval. apply wp_engine_call; [|done].
  intros acc es Hacc.
  repeat first
    [ apply wp_bind_any; intros ? ?
    | match goal with |- wp (let '(_, _) := ?x in _) _ _ _ => destruct x end ].
  apply wp_ret. split; [done|].
  eexists (mkRunMetrics _ _ _ _ _), _. split; [reflexivity|].
  cbn [accuracy]. by eapply Hrange.
Qed.

Lemma sum_le_length (l : list Q) :
  Forall (λ x, x <= 1) l → sum l <= inject_Z (Z.of_nat (length l)).
Proof.
  induction 1 as [|x l Hx _ IH]; [done|].
  cbn [length]. rewrite Nat2Z.inj_succ, <- Z.add_1_r, inject_Z_plus.
  unfold sum in *. cbn [foldr]. change (inject_Z 1) with 1. lra.
Qed.

Lemma mean_le_1 (l : list Q) : Forall (λ x, x <= 1) l → mean l <= 1.
Proof.
  intros Hl. destruct l as [|x l]; [done|].
  unfold mean. apply Qle_shift_div_r.
  - change 0 with (inject_Z 0). rewrite <- Zlt_Qlt. cbn [length]. lia.
  - rewrite Qmult_1_l. by apply sum_le_length.
Qed.

(** X14: when every accuracy the evaluator returns lies between 0 and 1,
    so does the accuracy of a row, the mean over the repetitions. *)
Theorem averaged_accuracy_range hp fp schema n w res w' :
  (∀ model test es a es',
     transform_evaluate E model test es = (Ok a, es') → 0 <= a <= 1) →
  evaluate_performance hp fp schema n w = (Ok res, w') →
  0 <= perf_model_accuracy res <= 1.
Proof.
  intros Hrange Hrun.
  destruct n as [|n].
  { unfold evaluate_performance, bind in Hrun. simpl in Hrun. discriminate. }
  pose proof (evaluate_performance_spec hp fp schema (S n) w ltac:(lia)) as H.
  unfold wp in H. rewrite Hrun in H. destruct H as (Hlen & _ & _ & _ & _ & H5).
  set (ms := run_metrics hp fp schema 0 (S n) (init_locals (S n)) w) in *.
  assert (Hms : Forall (λ m, 0 <= accuracy m <= 1) ms).
  { apply (run_metrics_Forall (λ m, 0 <= accuracy m <= 1) (λ _, True)
             hp fp schema (S n) (S n)
             (λ i st w0 _, iteration_accuracy (λ a, 0 <= a <= 1) hp fp schema i st w0 Hrange)
             [] (init_locals (S n)) w); [simpl; lia|apply holds_init|done]. }
  rewrite H5. split.
  - apply mean_nonneg, Forall_fmap. eapply Forall_impl; [exact Hms|]. by intros m [? _].
  - apply mean_le_1, Forall_fmap. eapply Forall_impl; [exact Hms|]. by intros m [_ ?].
Qed.
End AccuracyFurther.

Lemma averaged_accuracy_range_witness :
  let w := Scripted.start None in
  let fp := "/data/reddit/reddit_50k.json" in
  (∀ model test es a es',
     transform_evaluate (Scripted.engine None) model test es = (Ok a, es') →
     (0 <= a <= 1)%Q) ∧
  ∃ res w',
    evaluate_performance hdfs_path fp (Some schema_v1) 3 w = (Ok res, w') ∧
    (0 <= perf_model_accuracy res <= 1)%Q.
Proof.
  intros w fp.
  assert (Hrange : ∀ model test es a es',
            transform_evaluate (Scripted.engine None) model test es = (Ok a, es') →
            (0 <= a <= 1)%Q).
  { intros model test es a es' [= <- _]. unfold Qle; simpl. lia. }
  split; [exact Hrange|].
  destruct (evaluate_performance hdfs_path fp (Some schema_v1) 3 w) as [[res|e] w'] eqn:Hrun.
  - exists res, w'. split; [reflexivity|].
    exact (averaged_accuracy_range hdfs_path fp (Some schema_v1) 3 w res w' Hrange Hrun).
  - vm_compute in Hrun. discriminate Hrun.
Defined.

(** ** Sessions built for a dataset *)

Section CountFurther.
Context {E : Engine}.
Implicit Types w : World E.

Lemma build_spark_session_count hp fp w :
  calm w →
  wp (build_spark_session hp fp)
     (λ r w', r.1.2 = r.1.1 ∧ live w' = [r.1.1] ∧
              created w' + length (live w) = created w + 2)
     (λ _ _, True) w.
Proof.
  intros Hw. destruct (calm_live_cases w Hw) as [Hl|[s0 Hl]]; rewrite Hl.
  - eapply wp_mono; [by apply build_spark_session_clean| |done].
    intros r w' (H1 & _ & H3 & H4 & _). simpl. split; [done|]. split; [done|lia].
  - eapply wp_mono; [by apply build_spark_session_reuse| |done].
    intros r w' (H1 & _ & H3 & H4 & _). simpl. split; [done|]. split; [done|lia].
Qed.

Lemma wp_neutral_bind_all {A B} (m : M E A) (k : A → M E B) Qok w :
  neutral m →
  (∀ a w', live w' = live w → history w' = history w → created w' = created w →
     wp (k a) Qok (λ _ _, True) w') →
  wp (bind m k) Qok (λ _ _, True) w.
Proof.
  intros Hm Hk. apply wp_bind. unfold wp at 1.
  destruct (Hm w) as (Hl & Hh & Hc). destruct (m w) as [[a|e] w']; simpl in *; eauto.
Qed.

Lemma iteration_count hp fp schema i st w :
  calm w →
  wp (iteration hp fp schema i st)
     (λ _ w', live w' = [] ∧ created w' + length (live w) = created w + 2)
     (λ _ _, True) w.
Proof.
  intros Hw. unfold iteration.
  apply wp_neutral_bind_all; [apply neutral_print|].
  intros _ w1 Hl1 Hh1 Hcr1. assert (Hc1 : calm w1) by by eapply calm_frame.
  apply wp_bind, wp_engine_read. cbv beta.
  apply wp_bind.
  eapply wp_mono; [by apply build_spark_session_count| |done].
  intros [[spark_session spark_context] fileSize] w3 (Hctx & Hl3 & Hcr3).
  simpl in Hctx, Hl3. subst spark_context.
  repeat (apply wp_neutral_bind_created;
          [first [ apply neutral_load_data | apply neutral_filter_data
                 | apply neutral_split_data | apply neutral_engine_read
                 | apply neutral_random_forest | apply neutral_model_eval
                 | apply neutral_conf_get ]
          | let Hl := fresh "Hl" in let Hc := fresh "Hc" in
            intros ? ? Hl Hc;
            match type of Hl with
            | live ?w' = live _ =>
                assert (live w' = [spark_session]) by congruence;
                assert (created w' = created w3) by congruence
            end
          | done ];
          try match goal with |- wp (let '(_, _) := ?x in _) _ _ _ => destruct x end).
  apply wp_bind, wp_stop.
  - intros _. apply wp_bind, wp_engine_read. apply wp_ret. simpl.
    match goal with H : live _ = [spark_session] |- _ => rewrite H end.
    rewrite filter_cons, decide_False by (intros H'; by apply H'). simpl.
    split; [done|]. rewrite <- Hl1. lia.
  - intros Hout. destruct Hout.
    match goal with H : live _ = [spark_session] |- _ => rewrite H end.
    by apply list_elem_of_singleton.
Qed.

Lemma loop_count hp fp schema (l : list nat) :
  ∀ st w, calm w →
  wp (for_each l (iteration hp fp schema) st)
     (λ _ w', calm w' ∧ live w' = (if l is [] then live w else []) ∧
              created w' + (if l is [] then 0 else length (live w))
              = created w + 2 * length l)
     (λ _ _, True) w.
Proof.
  induction l as [|i l IH]; intros st w Hw; simpl.
  - split; [done|]. split; [done|lia].
  - apply wp_bind.
    eapply wp_mono;
      [apply wp_conj; [by apply iteration_sessions|by apply iteration_count] | |done].
    intros st1 w1 [[Hc1 _] [Hl1 Hcr1]].
    eapply wp_mono; [by apply IH| |done].
    intros st2 w2 (Hc2 & Hl2 & Hcr2). split; [done|].
    destruct l as [|j l]; (split; [congruence|]); rewrite ?Hl1 in Hcr2; simpl in *; lia.
Qed.

(** X15: a dataset whose [n] repetitions all return has had [2 n]
    sessions built for it, a probe of the file size and a sized session in
    every repetition, less one when an earlier failure had left a session
    live, which the first probe takes over; and no session is live when
    [evaluate_performance] returns. *)
Theorem sessions_per_dataset hp fp schema n w res w' :
  calm w →
  evaluate_performance hp fp schema n w = (Ok res, w') →
  live w' = [] ∧ created w' + length (live w) = created w + 2 * n.
Proof.
  intros Hw Hrun.
  destruct n as [|n].
  { unfold evaluate_performance, bind in Hrun. simpl in Hrun. discriminate. }
  pose proof (loop_count hp fp schema (seq 0 (S n)) (init_locals (S n)) w Hw) as H.
  unfold evaluate_performance, bind in Hrun. unfold wp in H.
  destruct (for_each (seq 0 (S n)) (iteration hp fp schema) (init_locals (S n)) w)
    as [[st|e] w1]; [|discriminate].
  destruct H as (_ & Hl & Hcr). rewrite length_seq in Hcr.
  destruct (bound st) as [[[[fileSize executor_cores] executor_memory] max_cores]|];
    [|discriminate].
  injection Hrun as _ <-. split; [done|]. simpl in Hcr. lia.
Qed.
End CountFurther.

Lemma sessions_per_dataset_witness :
  let w := (iteration hdfs_path "/data/reddit/reddit_50k.json" (Some schema_v1) 0
              (init_locals 5) (Scripted.start (Some 0))).2 in
  let fp := "/data/reddit/reddit_100k.json" in
  (calm w ∧ length (live w) = 1) ∧
  ∃ res w',
    evaluate_performance hdfs_path fp (Some schema_v1) 3 w = (Ok res, w') ∧
    live w' = [] ∧ created w' + length (live w) = created w + 2 * 3.
Proof.
  intros w fp.
  assert (Hw : calm w) by (split; [vm_compute; lia | vm_compute; repeat constructor]).
  split; [split; [exact Hw | vm_compute; reflexivity]|].
  destruct (evaluate_performance hdfs_path fp (Some schema_v1) 3 w) as [[res|e] w'] eqn:Hrun.
  - exists res, w'. split; [reflexivity|].
    exact (sessions_per_dataset hdfs_path fp (Some schema_v1) 3 w res w' Hw Hrun).
  - vm_compute in Hrun. discriminate Hrun.
Defined.

(** ** The rows of the benchmark *)

Lemma length_append_string (s t : string) :
  String.length (s +:+ t) = String.length s + String.length t.
Proof. induction s as [|c s IH]; simpl; [done|]. by rewrite IH. Qed.

(** X16: [file[:-5]] takes an extension of five characters, such as
    [.json], off a file name, whatever the name. *)
Theorem drop_last5_extension (name ext : string) :
  String.length ext = 5 → drop_last5 (name +:+ ext) = name.
Proof.
  intros Hext. unfold drop_last5. induction name as [|c name IH].
  - change ("" +:+ ext) with ext. rewrite Hext. simpl. by destruct ext.
  - change (String c name +:+ ext) with (String c (name +:+ ext)).
    cbn [String.length].
    pose proof (length_append_string name ext) as Hlen.
    replace (S (String.length (name +:+ ext)) - 5)
      with (S (String.length (name +:+ ext) - 5)) by lia.
    cbn [String.substring]. by rewrite IH.
Qed.

Lemma drop_last5_extension_witness :
  String.length ".json" = 5 ∧ drop_last5 ("reddit_50k" +:+ ".json") = "reddit_50k".
Proof.
  split; [reflexivity|]. apply (drop_last5_extension "reddit_50k" ".json"). reflexivity.
Defined.

Section RowsFurther.
Context {E : Engine}.
Implicit Types w : World E.

(** X17: the loop over the files never raises, and the rows it adds
    follow the order of the files, at most one row for a file: their names
    are a sublist of the file names less their last five characters. *)
Theorem rows_follow_files n files :
  ∀ results w, ∃ rows w',
    benchmark_loop n files results w = (Ok (results ++ rows), w') ∧
    sublist (File <$> rows) (drop_last5 <$> files).
Proof.
  induction files as [|file files IH]; intros results w.
  - exists [], w. by rewrite app_nil_r.
  - unfold benchmark_loop; simpl. unfold bind at 1.
    pose proof (benchmark_file_cases n file results w) as Hfile.
    destruct (evaluate_performance _ _ _ _ _) as [[res|e] w1]; rewrite Hfile.
    + destruct (IH (results ++ [mkRowOf (drop_last5 file) res]) w1)
        as (rows & w' & Hrest & Hsub).
      exists (mkRowOf (drop_last5 file) res :: rows), w'.
      unfold benchmark_loop in Hrest. rewrite Hrest. split.
      * f_equal. f_equal. by rewrite <- app_assoc.
      * rewrite fmap_cons. simpl. by apply sublist_skip.
    + destruct (IH results (crash_log file e w1)) as (rows & w' & Hrest & Hsub).
      exists rows, w'. split; [apply Hrest|]. by apply sublist_cons.
Qed.

(** X18: with no repetition ([n = 0]) the benchmark never reaches Spark:
    every file fails at the [return] of [evaluate_performance], no row is
    added, no session is built, the engine is left as it was, and two
    lines are printed for every file. *)
Theorem no_repetition_no_row files :
  ∀ results w, ∃ w',
    benchmark_loop 0 files results w = (Ok results, w') ∧
    eng w' = eng w ∧ live w' = live w ∧ created w' = created w ∧
    history w' = history w ∧
    length (stdout w') = length (stdout w) + 2 * length files.
Proof.
  induction files as [|file files IH]; intros results w.
  - exists w. repeat split; simpl; lia.
  - unfold benchmark_loop; simpl. unfold bind at 1.
    pose proof (benchmark_file_cases 0 file results w) as Hfile.
    unfold evaluate_performance at 1 in Hfile. unfold bind at 1 in Hfile.
    cbn [for_each seq init_locals bound ret raise] in Hfile.
    rewrite Hfile.
    destruct (IH results
                (crash_log file "local variable 'fileSize' referenced before assignment" w))
      as (w' & Hrun & He & Hl & Hc & Hh & Hout).
    exists w'. unfold benchmark_loop in Hrun. rewrite Hrun.
    repeat split; try done. rewrite Hout. simpl. rewrite length_app. simpl. lia.
Qed.
End RowsFurther.

(** ** The stages handed to the fit *)

Lemma forallb_decide {A} (P : A → Prop) `{∀ x, Decision (P x)} (l : list A) :
  forallb (λ x, bool_decide (P x)) l = true ↔ Forall P l.
Proof.
  induction l as [|x l IH]; simpl; [by split; [constructor|]|].
  by rewrite andb_true_iff, bool_decide_eq_true, IH, Forall_cons.
Qed.

Lemma transformSchema_cons s rest columns out :
  transformSchema (s :: rest) columns = Some out ↔
  Forall (λ c, c ∈ columns) (stage_reads s) ∧
  Forall (λ c, c ∉ columns) (stage_writes s) ∧
  transformSchema rest (columns ++ stage_writes s) = Some out.
Proof.
  cbn [transformSchema].
  destruct (forallb (λ c, bool_decide (c ∈ columns)) (stage_reads s)) eqn:Hr;
    destruct (forallb (λ c, bool_decide (c ∉ columns)) (stage_writes s)) eqn:Hw; simpl.
  - apply forallb_decide in Hr, Hw. split; [done|by intros (_ & _ & ?)].
  - split; [done|]. intros (_ & H2 & _). apply (forallb_decide (λ c, c ∉ columns)) in H2. congruence.
  - split; [done|]. intros (H1 & _ & _). apply (forallb_decide (λ c, c ∈ columns)) in H1. congruence.
  - split; [done|]. intros (H1 & _ & _). apply (forallb_decide (λ c, c ∈ columns)) in H1. congruence.
Qed.

(** Columns that no stage adds do not disturb the check. *)
Lemma transformSchema_frame stages :
  ∀ base columns out,
    transformSchema stages base = Some out →
    base ⊆ columns →
    (∀ c s, c ∈ columns → c ∉ base → s ∈ stages → c ∉ stage_writes s) →
    ∃ out', transformSchema stages columns = Some out' ∧ out ⊆ out' ∧ columns ⊆ out'.
Proof.
  induction stages as [|s rest IH]; intros base columns out Hbase Hsub Hextra.
  - injection Hbase as <-. by exists columns.
  - apply transformSchema_cons in Hbase as (Hr & Hw & Hrest).
    destruct (IH (base ++ stage_writes s) (columns ++ stage_writes s) out Hrest)
      as (out' & Hout & Hsub1 & Hsub2).
    + intros c [?|?]%elem_of_app; apply elem_of_app; auto.
    + intros c s' [Hc|Hc]%elem_of_app Hnb%not_elem_of_app Hs'; [|tauto].
      apply (Hextra c s'); [done|tauto|by right].
    + exists out'. split; [|split; [done|]].
      * apply transformSchema_cons. split; [|split; [|done]].
        -- eapply Forall_impl; [exact Hr|]. intros c Hc. by apply Hsub.
        -- apply Forall_forall. intros c Hc Hcol.
           destruct (decide (c ∈ base)) as [Hb|Hb].
           ++ by eapply Forall_forall in Hw.
           ++ apply (Hextra c s); [done|done|by left|done].
      * intros c Hc. apply Hsub2, elem_of_app. by left.
Qed.

Section PipelineFurther.
Context {E : Engine}.

(** X19: the stages [random_forest] and [logistic_regression] hand to the
    fit are wired for any input that has the three columns of the schema
    and no column of a name that a stage adds: every stage finds the
    columns it reads, among those of the input and those added before it,
    no stage adds a column that is there already, and the columns the
    evaluator of [model_eval] reads are among the columns that come out. *)
Theorem pipeline_wired (columns : list string) (train_data : DataFrame) (w : World E) :
  schema_v1 ⊆ columns →
  (∀ c s, c ∈ columns →
     s ∈ pre_processing_pipe ++
         [RandomForestClassifier "features" "label" 100;
          LogisticRegression "features" "label" 10] →
     c ∉ stage_writes s) →
  ∃ forest regression out_forest out_regression,
    random_forest train_data pre_processing_pipe w
      = engine_call (pipeline_fit E forest train_data) w ∧
    logistic_regression train_data pre_processing_pipe w
      = engine_call (pipeline_fit E regression train_data) w ∧
    transformSchema forest columns = Some out_forest ∧
    transformSchema regression columns = Some out_regression ∧
    columns ++ evaluator_columns ⊆ out_forest ∧
    columns ++ evaluator_columns ⊆ out_regression.
Proof.
  intros Hschema Hfresh.
  destruct (transformSchema_frame
              (pre_processing_pipe ++ [RandomForestClassifier "features" "label" 100])
              schema_v1 columns _ eq_refl Hschema) as (out1 & Hout1 & Hsub1 & Hcol1).
  { intros c s Hc _ Hs. apply Hfresh; [done|].
    apply elem_of_app in Hs as [Hs|Hs%list_elem_of_singleton]; apply elem_of_app;
      [by left|right; subst s; by left]. }
  destruct (transformSchema_frame
              (pre_processing_pipe ++ [LogisticRegression "features" "label" 10])
              schema_v1 columns _ eq_refl Hschema) as (out2 & Hout2 & Hsub2 & Hcol2).
  { intros c s Hc _ Hs. apply Hfresh; [done|].
    apply elem_of_app in Hs as [Hs|Hs%list_elem_of_singleton]; apply elem_of_app;
      [by left|right; subst s; right; by left]. }
  eexists _, _, out1, out2.
  split; [reflexivity|]. split; [reflexivity|]. split; [exact Hout1|].
  split; [exact Hout2|].
  split; intros c [Hc|Hc]%elem_of_app; auto.
  - apply Hsub1. revert Hc. unfold evaluator_columns.
    rewrite !elem_of_cons, elem_of_nil.
    intros [->|[->|[]]]; by apply (bool_decide_unpack _).
  - apply Hsub2. revert Hc. unfold evaluator_columns.
    rewrite !elem_of_cons, elem_of_nil.
    intros [->|[->|[]]]; by apply (bool_decide_unpack _).
Qed.
End PipelineFurther.

Lemma pipeline_wired_witness :
  let columns := ["id"; "subreddit"; "summary"; "content"] in
  schema_v1 ⊆ columns ∧
  ∃ forest regression out_forest out_regression,
    random_forest (E := Scripted.engine None) Scripted.posts pre_processing_pipe
        (Scripted.start None)
      = engine_call (pipeline_fit (Scripted.engine None) forest Scripted.posts)
          (Scripted.start None) ∧
    logistic_regression (E := Scripted.engine None) Scripted.posts pre_processing_pipe
        (Scripted.start None)
      = engine_call (pipeline_fit (Scripted.engine None) regression Scripted.posts)
          (Scripted.start None) ∧
    transformSchema forest columns = Some out_forest ∧
    transformSchema regression columns = Some out_regression ∧
    columns ++ evaluator_columns ⊆ out_forest ∧
    columns ++ evaluator_columns ⊆ out_regression.
Proof.
  intros columns.
  assert (Hschema : schema_v1 ⊆ columns).
  { intros c Hc. by apply list_elem_of_further. }
  split; [exact Hschema|].
  apply (pipeline_wired (E := Scripted.engine None) columns Scripted.posts
           (Scripted.start None) Hschema).
  intros c s Hc Hs.
  assert (Hall : Forall (λ c, Forall (λ s, c ∉ stage_writes s)
                          (pre_processing_pipe ++
                           [RandomForestClassifier "features" "label" 100;
                            LogisticRegression "features" "label" 10])) columns)
    by (apply (bool_decide_unpack _); vm_compute; exact I).
  eapply Forall_forall in Hall; [|exact Hc].
  eapply Forall_forall in Hall; [|exact Hs]. exact Hall.
Defined.

